(** * Live tracking maps: the event pipeline and the client reconstruction

    A shallow embedding of the server (resolvers.ts, geo-simulator.ts) and
    of the client state handling (App.tsx, Map.tsx, Sidebar.tsx), followed
    by the properties of the specification that concern them.

    Conventions of the embedding:
    - JavaScript numbers are modelled as exact rationals [Q]; IEEE-754
      rounding error of the double arithmetic is outside the model.
      Comparisons, [Math.max] and [Math.min] are exact on doubles, so the
      bounds by [BOUNDS] are those of the code; a bound on a computed
      sum or quotient is stated with a margin far above the rounding
      error of a double of that size (about 1e-14 degrees).
    - [Math.random()], [Date.now()] and [new Date().toISOString()] are
      inputs of a tick (record [Tick.t]).
    - a JavaScript array that is shared by reference lives in a heap
      (field [heap] of [Resolvers.State]) and is denoted by its location.
    - console output is not modelled. *)

From Stdlib Require Import QArith Qround Qminmax ZArith Lia Lqa.
From stdpp Require Import gmap strings list fin_maps pretty.

(** ** schema.ts / subscriptions.ts: the event record *)

Module GeoData.
Record t : Type := mk {
  id : string;
  name : string;
  lat : Q;
  lon : Q;
  identifier : string;
  timestamp : string;
}.
End GeoData.

(** ** The JavaScript operations the sources rely on *)

Module JS.
Inductive Error : Type :=
| TypeError.

(** The outcome of running a piece of code: a value, or a thrown error. *)
Inductive Completion (A : Type) : Type :=
| Normal (a : A)
| Throw (e : Error).
Arguments Normal {A} a.
Arguments Throw {A} e.

Definition is_Normal {A} (c : Completion A) : bool :=
  match c with Normal _ => true | Throw _ => false end.

(** [arr[i]] for a number [i] that is an integer: [undefined] (here
    [None]) when [i] is negative or past the end. *)
Definition index {A} (arr : list A) (i : Z) : option A :=
  if (i <? 0)%Z then None else arr !! Z.to_nat i.

(** [arr.slice(-n)] for [n > 0]: the last [n] elements, the whole
    array when it has fewer. *)
Definition slice_last {A} (n : nat) (arr : list A) : list A :=
  drop (length arr - n) arr.

(** [Math.floor] and [Math.round] (ties go up), on exact rationals. *)
Definition Math_floor (x : Q) : Z := Qfloor x.
Definition Math_round (x : Q) : Z := Qfloor (x + (1 # 2))%Q.

Definition Math_max (a b : Q) : Q := Qmax a b.
Definition Math_min (a b : Q) : Q := Qmin a b.
End JS.

(** ** resolvers.ts *)

Module Resolvers.
(** [geoDataStore] is one array object, created once and shared by
    reference: [addGeoData] pushes onto it in place and the
    [geoDataList] resolver hands the same object out. The heap maps the
    location of an array to its current contents. *)
Definition loc : Type := nat.

Record State : Type := {
  heap : gmap nat (list GeoData.t);
  (** what [pubsub.publish] was called with, oldest first *)
  published : list (string * GeoData.t);
}.

Definition NEW_GEO_DATA : string := "NEW_GEO_DATA".

(** [const geoDataStore: GeoData[] = []] *)
Definition geoDataStore : loc := 0.

Definition init : State :=
  {| heap := {[ geoDataStore := [] ]}; published := [] |}.

(** The contents seen through an array reference in a given state. *)
Definition read (st : State) (r : loc) : list GeoData.t :=
  default [] (heap st !! r).

(** [arr.push(x)] on the array at [r]. *)
Definition push (r : loc) (x : GeoData.t) (h : gmap nat (list GeoData.t))
  : gmap nat (list GeoData.t) :=
  alter (λ arr, arr ++ [x]) r h.

Definition addGeoData (geoData : GeoData.t) (st : State) : State :=
  {| heap := push geoDataStore geoData (heap st);
     published := published st ++ [(NEW_GEO_DATA, geoData)] |}.

(** [Query.geoDataList: () => geoDataStore]: the resolver returns the
    store array itself, not a copy. *)
Definition geoDataList (st : State) : loc := geoDataStore.

(** [addGeoData] called once per event, oldest first. *)
Definition run (events : list GeoData.t) (st : State) : State :=
  foldl (λ s geoData, addGeoData geoData s) st events.
End Resolvers.

(** ** geo-simulator.ts *)

Module Vehicle.
(** An entry of [IDENTIFIER_POOL]. *)
Record t : Type := mk { id : string; name : string; lat : Q; lon : Q }.
End Vehicle.

Module Position.
(** A value of the [currentPositions] map. *)
Record t : Type := mk { lat : Q; lon : Q }.
End Position.

Module Tick.
(** What one call of [generateRandomGeoData] reads from its
    environment: the three [Math.random()] results in call order, the
    value of [Date.now()] and the string of [new Date().toISOString()]. *)
Record t : Type := mk {
  random_pick : Q;
  random_lat : Q;
  random_lon : Q;
  now : Z;
  iso : string;
}.

(** [Math.random()] returns a number in [0, 1). *)
Definition unit_interval (r : Q) : Prop := (0 <= r)%Q ∧ (r < 1)%Q.

Definition valid (t : t) : Prop :=
  unit_interval (random_pick t) ∧ unit_interval (random_lat t)
  ∧ unit_interval (random_lon t).
End Tick.

Module GeoSimulator.
Import JS.

Record Bounds : Type := { minLat : Q; maxLat : Q; minLon : Q; maxLon : Q }.

Definition BOUNDS : Bounds :=
  {| minLat := 35.0%Q; maxLat := 60.0%Q; minLon := (-10.0)%Q; maxLon := 30.0%Q |}.

Definition IDENTIFIER_POOL : list Vehicle.t :=
  [ Vehicle.mk "VEHICLE-001" "Truck Alpha" 52.52%Q 13.405%Q;
    Vehicle.mk "VEHICLE-002" "Van Beta" 48.8566%Q 2.3522%Q;
    Vehicle.mk "VEHICLE-003" "Car Gamma" 51.5074%Q (-0.1278)%Q;
    Vehicle.mk "VEHICLE-004" "Bike Delta" 41.9028%Q 12.4964%Q;
    Vehicle.mk "VEHICLE-005" "Drone Echo" 52.3676%Q 4.9041%Q ].

(** The module state: the [currentPositions] map and [counter]. *)
Record State : Type := {
  currentPositions : gmap string Position.t;
  counter : Z;
}.

(** The module is written against the constant [IDENTIFIER_POOL]; the
    embedding takes the pool as a parameter so that the behaviour on
    another configuration list can be stated. *)
Section Pool.
Variable pool : list Vehicle.t.

(** [IDENTIFIER_POOL.forEach(v => currentPositions.set(v.id, ...))],
    then [let counter = 0]. *)
Definition init : State :=
  {| currentPositions :=
       foldl (λ m v, <[Vehicle.id v := Position.mk (Vehicle.lat v) (Vehicle.lon v)]> m)
             ∅ pool;
     counter := 0 |}.

Definition generateRandomGeoData (t : Tick.t) (st : State)
  : Completion GeoData.t * State :=
  let st1 := {| currentPositions := currentPositions st;
                counter := (counter st + 1)%Z |} in
  match index pool (Math_floor (Tick.random_pick t * inject_Z (Z.of_nat (length pool)))%Q) with
  | None => (Throw TypeError, st1)            (* vehicle.id on undefined *)
  | Some vehicle =>
    match currentPositions st1 !! Vehicle.id vehicle with
    | None => (Throw TypeError, st1)          (* currentPos.lat on undefined *)
    | Some currentPos =>
      let latDelta := ((Tick.random_lat t - 0.5) * 0.3)%Q in
      let lonDelta := ((Tick.random_lon t - 0.5) * 0.3)%Q in
      let newLat := (Position.lat currentPos + latDelta)%Q in
      let newLon := (Position.lon currentPos + lonDelta)%Q in
      let newLat := Math_max (minLat BOUNDS) (Math_min (maxLat BOUNDS) newLat) in
      let newLon := Math_max (minLon BOUNDS) (Math_min (maxLon BOUNDS) newLon) in
      let st2 := {| currentPositions :=
                      <[Vehicle.id vehicle := Position.mk newLat newLon]>
                        (currentPositions st1);
                    counter := counter st1 |} in
      (Normal
         {| GeoData.id := "geo-" +:+ pretty (Tick.now t) +:+ "-" +:+ pretty (counter st1);
            GeoData.name := Vehicle.name vehicle;
            GeoData.lat := (inject_Z (Math_round (newLat * 1000000)) / 1000000)%Q;
            GeoData.lon := (inject_Z (Math_round (newLon * 1000000)) / 1000000)%Q;
            GeoData.identifier := Vehicle.id vehicle;
            GeoData.timestamp := Tick.iso t |},
       st2)
    end
  end.

(** The entry [generateRandomGeoData] picks for a given first random
    number. *)
Definition picked (t : Tick.t) : option Vehicle.t :=
  index pool (Math_floor (Tick.random_pick t * inject_Z (Z.of_nat (length pool)))%Q).

(** The callback given to [setInterval]: generate an event and hand
    it to [addGeoData]. A throw inside [generateRandomGeoData] leaves
    the store untouched. *)
Definition tick (t : Tick.t) (st : State * Resolvers.State)
  : Completion unit * (State * Resolvers.State) :=
  match generateRandomGeoData t (fst st) with
  | (Normal geoData, sim) => (Normal (), (sim, Resolvers.addGeoData geoData (snd st)))
  | (Throw e, sim) => (Throw e, (sim, snd st))
  end.

(** [startGeoSimulator(intervalMs = 5000)]: two log lines, then
    [setInterval(callback, intervalMs)]. No statement of it can throw
    and it looks at the pool only to print it. The installed timer is
    returned: its period and its callback. *)
Record Timer : Type := {
  intervalMs : Z;
  callback : Tick.t → State * Resolvers.State → Completion unit * (State * Resolvers.State);
}.

Definition startGeoSimulator (interval : option Z) : Completion Timer :=
  Normal {| intervalMs := default 5000%Z interval; callback := tick |}.
End Pool.

(** Every position stored for a pool member exists: the states the
    module can be in. *)
Definition positions_defined (pool : list Vehicle.t) (st : State) : Prop :=
  ∀ v, v ∈ pool → is_Some (currentPositions st !! Vehicle.id v).
End GeoSimulator.

(** ** App.tsx: the state of the root component and its handlers *)

Module App.
Import JS.

Record State : Type := {
  filteredIdentifiers : gset string;
  recentData : list GeoData.t;
  notifications : list GeoData.t;
  focusPoint : option GeoData.t;
}.

(** The four [useState] initial values. *)
Definition init : State :=
  {| filteredIdentifiers := ∅; recentData := []; notifications := [];
     focusPoint := None |}.

Definition handleNewGeoData (data : GeoData.t) (st : State) : State :=
  {| filteredIdentifiers := filteredIdentifiers st;
     recentData := slice_last 50 (recentData st) ++ [data];
     notifications := slice_last 99 (notifications st) ++ [data];
     focusPoint := focusPoint st |}.

Definition handleNotificationClick (data : GeoData.t) (st : State) : State :=
  {| filteredIdentifiers := filteredIdentifiers st;
     recentData := recentData st;
     notifications :=
       filter (λ n, GeoData.id n ≠ GeoData.id data) (notifications st);
     focusPoint := Some data |}.

Definition handleClearAllNotifications (st : State) : State :=
  {| filteredIdentifiers := filteredIdentifiers st;
     recentData := recentData st;
     notifications := [];
     focusPoint := focusPoint st |}.

Definition setFilteredIdentifiers (identifiers : gset string) (st : State) : State :=
  {| filteredIdentifiers := identifiers;
     recentData := recentData st;
     notifications := notifications st;
     focusPoint := focusPoint st |}.

(** [handleNewGeoData] called once per event, oldest first. *)
Definition receive (events : list GeoData.t) (st : State) : State :=
  foldl (λ s data, handleNewGeoData data s) st events.
End App.

(** ** Sidebar.tsx: the filter controls *)

Module Sidebar.
Definition ALL_IDENTIFIERS : list (string * string) :=
  [ ("VEHICLE-001", "Truck Alpha"); ("VEHICLE-002", "Van Beta");
    ("VEHICLE-003", "Car Gamma"); ("VEHICLE-004", "Bike Delta");
    ("VEHICLE-005", "Drone Echo") ].

(** Each handler builds a new set and passes it to [onFilterChange];
    the set passed is the result here. *)
Definition handleCheckboxChange (filteredIdentifiers : gset string)
    (identifier : string) (checked : bool) : gset string :=
  if checked then filteredIdentifiers ∪ {[ identifier ]}
  else filteredIdentifiers ∖ {[ identifier ]}.

Definition handleSelectAll : gset string :=
  list_to_set (fst <$> ALL_IDENTIFIERS).

Definition handleClearAll : gset string := ∅.

(** The [checked] property of a vehicle's checkbox. *)
Definition checked (filteredIdentifiers : gset string) (vehicle : string) : bool :=
  bool_decide (size filteredIdentifiers = 0)
  || bool_decide (vehicle ∈ filteredIdentifiers).
End Sidebar.

(** ** Map.tsx: the map component *)

Module MapView.
(** A projected coordinate; the projection of [ol/proj] is left
    uninterpreted. *)
Inductive Coordinate : Type :=
| fromLonLat (lon lat : Q).

(** The only feature style the component creates: [new Style({})],
    which has no image, stroke, fill or text and so draws nothing. *)
Inductive Style : Type :=
| EmptyStyle.

Module Point.
(** A feature of the points source: its geometry, its properties,
    its id ([setId]) and its own style ([setStyle]; [None] is
    [undefined]). *)
Record t : Type := mk {
  geometry : Coordinate;
  name : string;
  identifier : string;
  lat : Q;
  lon : Q;
  timestamp : string;
  isLatest : bool;
  pointIndex : nat;
  id : string;
  style : option Style;
}.

Definition set_isLatest (b : bool) (f : t) : t :=
  mk (geometry f) (name f) (identifier f) (lat f) (lon f) (timestamp f)
     b (pointIndex f) (id f) (style f).

Definition setStyle (s : option Style) (f : t) : t :=
  mk (geometry f) (name f) (identifier f) (lat f) (lon f) (timestamp f)
     (isLatest f) (pointIndex f) (id f) s.
End Point.

Module Line.
(** A feature of the lines source. *)
Record t : Type := mk {
  coordinates : list Coordinate;
  identifier : string;
  id : string;
  style : option Style;
}.

Definition setCoordinates (cs : list Coordinate) (f : t) : t :=
  mk cs (identifier f) (id f) (style f).

Definition setStyle (s : option Style) (f : t) : t :=
  mk (coordinates f) (identifier f) (id f) s.
End Line.

Record View : Type := { center : Coordinate; zoom : Z }.

(** The refs of the component. The two sources are [null] until the
    map has been initialised; a source is the list of its features in
    the order they were added. *)
Record State : Type := {
  pointsSourceRef : option (list Point.t);
  linesSourceRef : option (list Line.t);
  geoDataByIdentifier : gmap string (list GeoData.t);
  view : option View;
}.

(** Before the first effect runs. *)
Definition init : State :=
  {| pointsSourceRef := None; linesSourceRef := None;
     geoDataByIdentifier := ∅; view := None |}.

(** The map initialisation effect (runs once, on mount). *)
Definition initEffect (st : State) : State :=
  match view st with
  | Some _ => st
  | None =>
    {| pointsSourceRef := Some []; linesSourceRef := Some [];
       geoDataByIdentifier := geoDataByIdentifier st;
       view := Some {| center := fromLonLat 10 48; zoom := 4 |} |}
  end.

(** [source.addFeature(f)] of OpenLayers: a feature whose id is
    already in the source's id index is not added. The list of a source
    records its features in the order of the [addFeature] calls; it is
    not the order in which [source.getFeatures()] enumerates them (that
    of the spatial index), so a feature is looked up by its id or by
    membership, and a position in the list only says which of two
    features was added first. *)
Definition addPoint (f : Point.t) (src : list Point.t) : list Point.t :=
  if bool_decide (Point.id f ∈ Point.id <$> src) then src else src ++ [f].

Definition addLine (f : Line.t) (src : list Line.t) : list Line.t :=
  if bool_decide (Line.id f ∈ Line.id <$> src) then src else src ++ [f].

(** [source.getFeatureById(id)] *)
Definition getFeatureById (fid : string) (src : list Line.t) : option Line.t :=
  list_find (λ f, Line.id f = fid) src ≫= λ p, Some (snd p).

(** The loop that clears the flag of the previous latest point. *)
Definition clearLatest (identifier : string) (src : list Point.t) : list Point.t :=
  (λ f, if bool_decide (Point.identifier f = identifier) && Point.isLatest f
        then Point.set_isLatest false f else f) <$> src.

Section Effects.
(** The component calls its [onNewGeoData] prop, which updates state
    of the parent. *)
Context {Parent : Type}.
Variable onNewGeoData : GeoData.t → Parent → Parent.

(** The effect on [data] of the subscription. *)
Definition dataEffect (data : option GeoData.t) (p : Parent) (st : State)
  : Parent * State :=
  match data, pointsSourceRef st, linesSourceRef st with
  | Some geoData, Some points, Some lines =>
    let p := onNewGeoData geoData p in
    let identifierData :=
      default [] (geoDataByIdentifier st !! GeoData.identifier geoData) ++ [geoData] in
    let trails :=
      <[GeoData.identifier geoData := identifierData]> (geoDataByIdentifier st) in
    let points := clearLatest (GeoData.identifier geoData) points in
    let pointIndex := length identifierData in
    let pointFeature :=
      Point.mk (fromLonLat (GeoData.lon geoData) (GeoData.lat geoData))
               (GeoData.name geoData) (GeoData.identifier geoData)
               (GeoData.lat geoData) (GeoData.lon geoData)
               (GeoData.timestamp geoData) true pointIndex
               (GeoData.id geoData) None in
    let points := addPoint pointFeature points in
    let lineFeatureId := "line-" +:+ GeoData.identifier geoData in
    let existingLine := getFeatureById lineFeatureId lines in
    let lines :=
      if bool_decide (2 ≤ length identifierData) then
        let coords := (λ d, fromLonLat (GeoData.lon d) (GeoData.lat d)) <$> identifierData in
        match existingLine with
        | Some _ =>
          (λ f, if bool_decide (Line.id f = lineFeatureId)
                then Line.setCoordinates coords f else f) <$> lines
        | None =>
          addLine (Line.mk coords (GeoData.identifier geoData) lineFeatureId None) lines
        end
      else lines in
    (p, {| pointsSourceRef := Some points; linesSourceRef := Some lines;
           geoDataByIdentifier := trails; view := view st |})
  | _, _, _ => (p, st)
  end.
End Effects.

(** The [visible] expression of the filter effect. *)
Definition visible (filteredIdentifiers : gset string) (identifier : string) : bool :=
  bool_decide (size filteredIdentifiers = 0)
  || bool_decide (identifier ∈ filteredIdentifiers).

Definition styleFor (filteredIdentifiers : gset string) (identifier : string)
  : option Style :=
  if visible filteredIdentifiers identifier then None else Some EmptyStyle.

(** The effect on [filteredIdentifiers]. *)
Definition filterEffect (filteredIdentifiers : gset string) (st : State) : State :=
  match pointsSourceRef st, linesSourceRef st with
  | Some points, Some lines =>
    {| pointsSourceRef :=
         Some ((λ f, Point.setStyle (styleFor filteredIdentifiers (Point.identifier f)) f)
                 <$> points);
       linesSourceRef :=
         Some ((λ f, Line.setStyle (styleFor filteredIdentifiers (Line.identifier f)) f)
                 <$> lines);
       geoDataByIdentifier := geoDataByIdentifier st;
       view := view st |}
  | _, _ => st
  end.

(** The effect on [focusPoint]: the view is moved (the animation is
    taken at its end). *)
Definition focusEffect (focusPoint : option GeoData.t) (st : State) : State :=
  match focusPoint, view st with
  | Some d, Some _ =>
    {| pointsSourceRef := pointsSourceRef st; linesSourceRef := linesSourceRef st;
       geoDataByIdentifier := geoDataByIdentifier st;
       view := Some {| center := fromLonLat (GeoData.lon d) (GeoData.lat d);
                       zoom := 10 |} |}
  | _, _ => st
  end.

(** What the layers draw. A feature without a style of its own is drawn
    with the style function of its layer, which always yields a circle
    (points) or a stroke (lines); a feature whose own style is the empty
    style is not drawn. *)
Definition rendered (s : option Style) : bool :=
  match s with None => true | Some EmptyStyle => false end.

Definition points (st : State) : list Point.t := default [] (pointsSourceRef st).
Definition lines (st : State) : list Line.t := default [] (linesSourceRef st).

(** The data of a feature, its own style left out. *)
Definition pointData (f : Point.t) : Point.t := Point.setStyle None f.
Definition lineData (f : Line.t) : Line.t := Line.setStyle None f.

(** The map has been initialised: both sources exist. *)
Definition mounted (st : State) : Prop :=
  is_Some (pointsSourceRef st) ∧ is_Some (linesSourceRef st).

(** A point that carries the flag has no later point of the same
    identifier in the source. *)
Definition latest_is_last (src : list Point.t) : Prop :=
  ∀ i j f g,
    src !! i = Some f → src !! j = Some g →
    Point.identifier f = Point.identifier g →
    Point.isLatest f = true → j ≤ i.
End MapView.

(** ** The component tree: what happens on each external event *)

Module Client.
Record State : Type := { app : App.State; map : MapView.State }.

Inductive Event : Type :=
| NewGeoData (data : GeoData.t)              (* the subscription delivers *)
| CheckboxChange (identifier : string) (checked : bool)
| SelectAll
| ClearAll
| NotificationClick (data : GeoData.t)
| ClearAllNotifications.

(** After mount: the map is initialised; the data effect saw no data,
    the filter effect an empty source. *)
Definition init : State :=
  {| app := App.init;
     map := MapView.filterEffect (App.filteredIdentifiers App.init)
              (MapView.initEffect MapView.init) |}.

(** [onFilterChange] is [setFilteredIdentifiers]; the new set is a new
    object, so the effect that depends on [filteredIdentifiers] runs
    after the render. It is the only effect with that dependency. *)
Definition onFilterChange (identifiers : gset string) (st : State) : State :=
  {| app := App.setFilteredIdentifiers identifiers (app st);
     map := MapView.filterEffect identifiers (map st) |}.

Definition step (e : Event) (st : State) : State :=
  match e with
  | NewGeoData data =>
    let '(a, m) := MapView.dataEffect App.handleNewGeoData (Some data) (app st) (map st) in
    {| app := a; map := m |}
  | CheckboxChange identifier checked =>
    onFilterChange
      (Sidebar.handleCheckboxChange (App.filteredIdentifiers (app st)) identifier checked) st
  | SelectAll => onFilterChange Sidebar.handleSelectAll st
  | ClearAll => onFilterChange Sidebar.handleClearAll st
  | NotificationClick data =>
    let a := App.handleNotificationClick data (app st) in
    {| app := a; map := MapView.focusEffect (App.focusPoint a) (map st) |}
  | ClearAllNotifications =>
    {| app := App.handleClearAllNotifications (app st); map := map st |}
  end.

Definition run (es : list Event) (st : State) : State :=
  foldl (λ s e, step e s) st es.
End Client.

(** ** geo-simulator.ts over time: successive firings of the timer *)

Module Simulation.
(** The callback of [setInterval] run once per tick, oldest first. An
    exception that escapes the callback is caught nowhere and ends the
    process, so the later ticks do not happen. *)
Fixpoint run (pool : list Vehicle.t) (ts : list Tick.t)
    (st : GeoSimulator.State * Resolvers.State)
  : JS.Completion unit * (GeoSimulator.State * Resolvers.State) :=
  match ts with
  | [] => (JS.Normal (), st)
  | t :: ts =>
    match GeoSimulator.tick pool t st with
    | (JS.Normal _, st') => run pool ts st'
    | (JS.Throw e, st') => (JS.Throw e, st')
    end
  end.

(** A stored position lies in the box of [BOUNDS]. *)
Definition within_BOUNDS (p : Position.t) : Prop :=
  (GeoSimulator.minLat GeoSimulator.BOUNDS <= Position.lat p)%Q
  ∧ (Position.lat p <= GeoSimulator.maxLat GeoSimulator.BOUNDS)%Q
  ∧ (GeoSimulator.minLon GeoSimulator.BOUNDS <= Position.lon p)%Q
  ∧ (Position.lon p <= GeoSimulator.maxLon GeoSimulator.BOUNDS)%Q.

(** The id given to the event of a call: [`geo-${Date.now()}-${counter}`]. *)
Definition eventId (now counter : Z) : string :=
  "geo-" +:+ pretty now +:+ "-" +:+ pretty counter.
End Simulation.

(** ** Sidebar.tsx and NotificationBell.tsx: what the two lists show *)

Module SidebarView.
(** [recentData.slice(-10).reverse()]: the rows of Recent Updates. *)
Definition recentUpdates (recentData : list GeoData.t) : list GeoData.t :=
  reverse (JS.slice_last 10 recentData).

(** The All chip is filled when the set has as many members as there are
    vehicles, the None chip when it is empty. *)
Definition allChipFilled (filteredIdentifiers : gset string) : bool :=
  bool_decide (size filteredIdentifiers = length Sidebar.ALL_IDENTIFIERS).

Definition noneChipFilled (filteredIdentifiers : gset string) : bool :=
  bool_decide (size filteredIdentifiers = 0).
End SidebarView.

Module NotificationBell.
(** [notifications.slice().reverse()]: the rows of the popover. *)
Definition listed (notifications : list GeoData.t) : list GeoData.t :=
  reverse notifications.

(** The number on the badge and in the title of the popover. *)
Definition badgeContent (notifications : list GeoData.t) : nat :=
  length notifications.
End NotificationBell.

(** ** The events a client has been sent *)

Module Received.
(** The payloads of the subscription among the events of a client, in
    the order of arrival. *)
Definition data (es : list Client.Event) : list GeoData.t :=
  omap (λ e, match e with Client.NewGeoData d => Some d | _ => None end) es.

(** The events of one entity among them. *)
Definition of_entity (identifier : string) (es : list Client.Event) : list GeoData.t :=
  filter (λ d, GeoData.identifier d = identifier) (data es).

(** The coordinates of a route: [identifierData.map(d => fromLonLat([d.lon, d.lat]))]. *)
Definition coords (trail : list GeoData.t) : list MapView.Coordinate :=
  (λ d, MapView.fromLonLat (GeoData.lon d) (GeoData.lat d)) <$> trail.

End Received.

(** ** Concrete events, for evaluating the definitions *)

Module Sample.
Definition event (n : nat) (vehicle : string) : GeoData.t :=
  {| GeoData.id := "geo-" +:+ pretty n; GeoData.name := "Truck Alpha";
     GeoData.lat := 48; GeoData.lon := 10;
     GeoData.identifier := vehicle; GeoData.timestamp := "2025-01-01T00:00:00.000Z" |}.

(** [k] events of one vehicle, numbered from 1. *)
Definition events (k : nat) : list GeoData.t :=
  (λ n, event n "VEHICLE-001") <$> seq 1 k.

(** A tick whose three random numbers are 0.3, 0.9 and 0.1. *)
Definition tick : Tick.t :=
  {| Tick.random_pick := 0.3; Tick.random_lat := 0.9; Tick.random_lon := 0.1;
     Tick.now := 1735689600000; Tick.iso := "2025-01-01T00:00:00.000Z" |}.

(** A state of the simulator in which VEHICLE-002 stands just below
    the northern bound. *)
Definition near_north : GeoSimulator.State :=
  {| GeoSimulator.currentPositions :=
       <["VEHICLE-002" := Position.mk 59.9999996 2.3522]>
         (GeoSimulator.currentPositions (GeoSimulator.init GeoSimulator.IDENTIFIER_POOL));
     GeoSimulator.counter := 7 |}.

(** A short session of a client: three events of two vehicles, a filter
    change in between. *)
Definition session : list Client.Event :=
  [ Client.NewGeoData (event 1 "VEHICLE-001");
    Client.NewGeoData (event 2 "VEHICLE-002");
    Client.CheckboxChange "VEHICLE-001" true;
    Client.NewGeoData (event 3 "VEHICLE-001") ].
End Sample.

(** * Properties *)

(** ** Arrays: [slice] with a negative start *)

Section Slice.
Context {A : Type}.
Implicit Types (l : list A) (x : A).

Lemma slice_last_length n l : length (JS.slice_last n l) = min n (length l).
Proof. unfold JS.slice_last. rewrite length_drop. lia. Qed.

Lemma slice_last_all n l : length l ≤ n → JS.slice_last n l = l.
Proof.
  intros Hle. unfold JS.slice_last.
  replace (length l - n) with 0 by lia. apply drop_0.
Qed.

Lemma slice_last_snoc n l x :
  JS.slice_last (S n) (l ++ [x]) = JS.slice_last n l ++ [x].
Proof.
  unfold JS.slice_last. rewrite length_app. simpl.
  replace (length l + 1 - S n) with (length l - n) by lia.
  apply drop_app_le. lia.
Qed.

Lemma slice_last_slice_last n m l :
  n ≤ m → JS.slice_last n (JS.slice_last m l) = JS.slice_last n l.
Proof.
  intros Hnm. unfold JS.slice_last.
  rewrite drop_drop, length_drop. f_equal. lia.
Qed.
End Slice.

(** ** App.tsx: the two capped lists *)

Lemma receive_snoc evs d st :
  App.receive (evs ++ [d]) st = App.handleNewGeoData d (App.receive evs st).
Proof. unfold App.receive. by rewrite foldl_app. Qed.

(** The two lists after a non-empty batch of events, from any state. *)
Lemma receive_lists evs st :
  evs ≠ [] →
  App.notifications (App.receive evs st)
    = JS.slice_last 100 (App.notifications st ++ evs)
  ∧ App.recentData (App.receive evs st)
    = JS.slice_last 51 (App.recentData st ++ evs).
Proof.
  induction evs as [|d evs IH] using rev_ind; [done|]. intros _.
  rewrite receive_snoc, !app_assoc, !slice_last_snoc. simpl.
  destruct evs as [|e evs]; [by rewrite !app_nil_r|].
  destruct IH as [-> ->]; [done|].
  by rewrite !slice_last_slice_last by lia.
Qed.

(** The other two fields are not touched by incoming events. *)
Lemma receive_frame evs st :
  App.filteredIdentifiers (App.receive evs st) = App.filteredIdentifiers st
  ∧ App.focusPoint (App.receive evs st) = App.focusPoint st.
Proof.
  induction evs as [|d evs [IHf IHp]] using rev_ind; [done|].
  by rewrite receive_snoc.
Qed.

Lemma slice_last_app_drop {A} n (q evs : list A) :
  n ≤ length evs → JS.slice_last n (q ++ evs) = drop (length evs - n) evs.
Proof.
  intros Hn. unfold JS.slice_last. rewrite length_app.
  rewrite drop_app_ge by lia. f_equal. lia.
Qed.

(** C2. From any state of the notification list, once more than 100
    events have been appended through [handleNewGeoData] the list has
    exactly 100 entries, the last 100 events appended, in arrival order.
    From the initial (empty) list, at most 100 events are all kept, in
    arrival order. *)
Theorem notifications_keep_last_100 (evs : list GeoData.t) (st : App.State) :
  (100 < length evs →
     length (App.notifications (App.receive evs st)) = 100
     ∧ App.notifications (App.receive evs st) = drop (length evs - 100) evs)
  ∧ (length evs ≤ 100 →
     App.notifications (App.receive evs App.init) = evs).
Proof.
  split; intros Hlen.
  - destruct (receive_lists evs st) as [Hn _].
    { intros ->. simpl in Hlen. lia. }
    rewrite Hn, slice_last_app_drop by lia. split; [|done].
    rewrite length_drop. lia.
  - destruct evs as [|e evs]; [done|].
    destruct (receive_lists (e :: evs) App.init) as [Hn _]; [done|].
    rewrite Hn. simpl App.notifications. rewrite app_nil_l.
    by apply slice_last_all.
Qed.

Lemma notifications_keep_last_100_witness :
  (length (App.notifications (App.receive (Sample.events 101) App.init)) = 100
   ∧ App.notifications (App.receive (Sample.events 101) App.init)
     = drop (length (Sample.events 101) - 100) (Sample.events 101))
  ∧ App.notifications (App.receive (Sample.events 3) App.init) = Sample.events 3.
Proof.
  split.
  - apply (notifications_keep_last_100 (Sample.events 101) App.init).
    vm_compute. lia.
  - apply (notifications_keep_last_100 (Sample.events 3) App.init).
    vm_compute. lia.
Defined.

(** C3. The recent list is cut with [slice(-50)] before the new event is
    appended, so it keeps the last 51 events: after more than 50 events
    its length is 51, and the entry that came 51 events ago is still
    there. *)
Theorem recentData_keeps_last_51 (evs : list GeoData.t) (st : App.State) :
  50 < length evs →
  length (App.recentData (App.receive evs st)) = 51
  ∧ App.recentData (App.receive evs st) = drop (length evs - 51) evs.
Proof.
  intros Hlen. destruct (receive_lists evs st) as [_ Hr].
  { intros ->. simpl in Hlen. lia. }
  rewrite Hr, slice_last_app_drop by lia. split; [|done].
  rewrite length_drop. lia.
Qed.

Lemma recentData_keeps_last_51_witness :
  length (App.recentData (App.receive (Sample.events 51) App.init)) = 51
  ∧ App.recentData (App.receive (Sample.events 51) App.init)
    = drop (length (Sample.events 51) - 51) (Sample.events 51).
Proof.
  apply (recentData_keeps_last_51 (Sample.events 51) App.init).
  vm_compute. lia.
Defined.

(** The same at the concrete input: 51 events into the initial state
    leave 51 entries, the first event among them. *)
Example recentData_51_events :
  length (App.recentData (App.receive (Sample.events 51) App.init)) = 51
  ∧ head (App.recentData (App.receive (Sample.events 51) App.init))
    = Some (Sample.event 1 "VEHICLE-001").
Proof. vm_compute. done. Qed.

(** ** App.tsx and Map.tsx: acknowledging a notification *)

(** The effect on [focusPoint] moves the view only. *)
Lemma focusEffect_frame fp st :
  MapView.pointsSourceRef (MapView.focusEffect fp st) = MapView.pointsSourceRef st
  ∧ MapView.linesSourceRef (MapView.focusEffect fp st) = MapView.linesSourceRef st
  ∧ MapView.geoDataByIdentifier (MapView.focusEffect fp st)
    = MapView.geoDataByIdentifier st.
Proof. unfold MapView.focusEffect. by destruct fp, (MapView.view st). Qed.

(** C9. Clicking the notification of the event [data] removes from the
    notification list exactly the entries whose id is that of [data]: the
    others stay, in their order. The recent list, the trails of all
    entities and the two feature sources are left as they were; in
    particular a trail that held [data] still holds it. *)
Theorem notification_click_frame (data : GeoData.t) (st : Client.State) :
  let st' := Client.step (Client.NotificationClick data) st in
  App.notifications (Client.app st')
    = filter (λ n, GeoData.id n ≠ GeoData.id data) (App.notifications (Client.app st))
  ∧ (∀ n, n ∈ App.notifications (Client.app st')
          ↔ n ∈ App.notifications (Client.app st) ∧ GeoData.id n ≠ GeoData.id data)
  ∧ App.notifications (Client.app st') `sublist_of` App.notifications (Client.app st)
  ∧ App.recentData (Client.app st') = App.recentData (Client.app st)
  ∧ MapView.geoDataByIdentifier (Client.map st')
    = MapView.geoDataByIdentifier (Client.map st)
  ∧ MapView.pointsSourceRef (Client.map st') = MapView.pointsSourceRef (Client.map st)
  ∧ MapView.linesSourceRef (Client.map st') = MapView.linesSourceRef (Client.map st)
  ∧ (∀ trail,
       MapView.geoDataByIdentifier (Client.map st) !! GeoData.identifier data = Some trail →
       data ∈ trail →
       ∃ trail',
         MapView.geoDataByIdentifier (Client.map st') !! GeoData.identifier data
           = Some trail'
         ∧ data ∈ trail').
Proof.
  cbn [Client.step Client.app Client.map App.handleNotificationClick
       App.notifications App.recentData App.focusPoint].
  destruct (focusEffect_frame (Some data) (Client.map st)) as (Hp & Hl & Ht).
  split_and!; try done.
  - intros n. rewrite list_elem_of_filter. tauto.
  - apply sublist_filter.
  - intros trail Htrail Hin. exists trail. by rewrite Ht.
Qed.

(** ** Sidebar.tsx and Map.tsx: the visibility filter *)

Lemma visible_spec (F : gset string) (identifier : string) :
  MapView.visible F identifier = true ↔ F = ∅ ∨ identifier ∈ F.
Proof.
  unfold MapView.visible. rewrite orb_true_iff, !bool_decide_eq_true.
  by rewrite size_empty_iff, leibniz_equiv_iff.
Qed.

Lemma rendered_styleFor F identifier :
  MapView.rendered (MapView.styleFor F identifier) = MapView.visible F identifier.
Proof. unfold MapView.styleFor. by destruct (MapView.visible F identifier). Qed.

(** Right after the effect on [filteredIdentifiers] has run (on an
    initialised map), a feature of either source is drawn exactly when
    the set is empty or holds the feature's identifier, and the features
    are the same apart from their style. *)
Lemma filterEffect_visibility (F : gset string) (st : MapView.State) :
  is_Some (MapView.pointsSourceRef st) →
  is_Some (MapView.linesSourceRef st) →
  let st' := MapView.filterEffect F st in
  (∀ f, f ∈ MapView.points st' →
        MapView.rendered (MapView.Point.style f) = true
        ↔ F = ∅ ∨ MapView.Point.identifier f ∈ F)
  ∧ (∀ f, f ∈ MapView.lines st' →
          MapView.rendered (MapView.Line.style f) = true
          ↔ F = ∅ ∨ MapView.Line.identifier f ∈ F)
  ∧ MapView.pointData <$> MapView.points st' = MapView.pointData <$> MapView.points st
  ∧ MapView.lineData <$> MapView.lines st' = MapView.lineData <$> MapView.lines st
  ∧ MapView.geoDataByIdentifier st' = MapView.geoDataByIdentifier st.
Proof.
  intros [ps Hps] [ls Hls].
  unfold MapView.filterEffect, MapView.points, MapView.lines.
  rewrite Hps, Hls. simpl. split_and!.
  - intros f (g & -> & _)%list_elem_of_fmap. simpl.
    rewrite rendered_styleFor. apply visible_spec.
  - intros f (g & -> & _)%list_elem_of_fmap. simpl.
    rewrite rendered_styleFor. apply visible_spec.
  - rewrite <- list_fmap_compose. by apply list_fmap_ext.
  - rewrite <- list_fmap_compose. by apply list_fmap_ext.
  - done.
Qed.

Lemma mounted_init : MapView.mounted (Client.map Client.init).
Proof. split; by eexists. Qed.

Lemma mounted_filterEffect F st :
  MapView.mounted st → MapView.mounted (MapView.filterEffect F st).
Proof.
  intros [[ps Hps] [ls Hls]]. unfold MapView.filterEffect.
  rewrite Hps, Hls. split; by eexists.
Qed.

Lemma mounted_focusEffect fp st :
  MapView.mounted st → MapView.mounted (MapView.focusEffect fp st).
Proof.
  unfold MapView.mounted.
  by destruct (focusEffect_frame fp st) as (-> & -> & _).
Qed.

Lemma mounted_dataEffect {P} (cb : GeoData.t → P → P) data p st :
  MapView.mounted st → MapView.mounted (MapView.dataEffect cb data p st).2.
Proof.
  intros [[ps Hps] [ls Hls]]. unfold MapView.dataEffect.
  rewrite Hps, Hls. destruct data; split; simpl; by eauto.
Qed.

Lemma mounted_step e st :
  MapView.mounted (Client.map st) → MapView.mounted (Client.map (Client.step e st)).
Proof.
  intros Hm. destruct e; cbn [Client.step Client.onFilterChange Client.map];
    auto using mounted_filterEffect, mounted_focusEffect.
  pose proof (mounted_dataEffect App.handleNewGeoData (Some data) (Client.app st) _ Hm).
  by destruct (MapView.dataEffect _ _ _ _).
Qed.

Lemma mounted_run es st :
  MapView.mounted (Client.map st) → MapView.mounted (Client.map (Client.run es st)).
Proof.
  revert st. induction es as [|e es IH]; intros st Hst; [done|].
  apply IH. by apply mounted_step.
Qed.

(** C10. In the show-all state (empty filter set) unchecking the box of
    any vehicle passes the empty set to [onFilterChange] again: the state
    of the root component is what it was, every feature of the map is
    drawn after the filter effect has run, the features are otherwise
    unchanged, and every checkbox, that of the unchecked vehicle too,
    still shows as checked. *)
Theorem uncheck_in_show_all_state (identifier : string) (st : Client.State) :
  MapView.mounted (Client.map st) →
  App.filteredIdentifiers (Client.app st) = ∅ →
  let st' := Client.step (Client.CheckboxChange identifier false) st in
  Sidebar.handleCheckboxChange (App.filteredIdentifiers (Client.app st)) identifier false = ∅
  ∧ Client.app st' = Client.app st
  ∧ (∀ f, f ∈ MapView.points (Client.map st') →
          MapView.rendered (MapView.Point.style f) = true)
  ∧ (∀ f, f ∈ MapView.lines (Client.map st') →
          MapView.rendered (MapView.Line.style f) = true)
  ∧ MapView.pointData <$> MapView.points (Client.map st')
    = MapView.pointData <$> MapView.points (Client.map st)
  ∧ MapView.lineData <$> MapView.lines (Client.map st')
    = MapView.lineData <$> MapView.lines (Client.map st)
  ∧ (∀ vehicle,
       Sidebar.checked (App.filteredIdentifiers (Client.app st')) vehicle = true).
Proof.
  intros [Hps Hls] Hempty.
  cbn [Client.step Client.onFilterChange Client.app Client.map].
  rewrite Hempty.
  assert (Sidebar.handleCheckboxChange ∅ identifier false = ∅) as ->.
  { unfold Sidebar.handleCheckboxChange. apply difference_disjoint_L, disjoint_empty_l. }
  destruct (filterEffect_visibility ∅ (Client.map st) Hps Hls)
    as (Hp & Hl & Hpd & Hld & _).
  split_and!; try done.
  - destruct (Client.app st); simpl in *. by subst.
  - intros f Hf. apply Hp; auto.
  - intros f Hf. apply Hl; auto.
Qed.

Lemma uncheck_in_show_all_state_witness :
  let st := Client.run [Client.NewGeoData (Sample.event 1 "VEHICLE-001");
                        Client.NewGeoData (Sample.event 2 "VEHICLE-002")] Client.init in
  Client.app (Client.step (Client.CheckboxChange "VEHICLE-002" false) st) = Client.app st
  ∧ ∀ vehicle,
      Sidebar.checked
        (App.filteredIdentifiers
           (Client.app (Client.step (Client.CheckboxChange "VEHICLE-002" false) st)))
        vehicle = true.
Proof.
  intros st.
  assert (MapView.mounted (Client.map st)) as Hm.
  { apply mounted_run, mounted_init. }
  assert (App.filteredIdentifiers (Client.app st) = ∅) as He.
  { vm_compute. reflexivity. }
  destruct (uncheck_in_show_all_state "VEHICLE-002" st Hm He)
    as (_ & Happ & _ & _ & _ & _ & Hchecked).
  exact (conj Happ Hchecked).
Defined.

(** What holds of the filter: whenever the filter set is changed (by a
    checkbox or by the All and None chips), the features then in the two
    sources are drawn exactly as the set says, an empty set showing all,
    and no feature is removed or altered apart from its style. *)
Lemma filter_change_visibility (F : gset string) (st : Client.State) :
  MapView.mounted (Client.map st) →
  let st' := Client.onFilterChange F st in
  App.filteredIdentifiers (Client.app st') = F
  ∧ (∀ f, f ∈ MapView.points (Client.map st') →
          MapView.rendered (MapView.Point.style f) = true
          ↔ F = ∅ ∨ MapView.Point.identifier f ∈ F)
  ∧ (∀ f, f ∈ MapView.lines (Client.map st') →
          MapView.rendered (MapView.Line.style f) = true
          ↔ F = ∅ ∨ MapView.Line.identifier f ∈ F)
  ∧ MapView.pointData <$> MapView.points (Client.map st')
    = MapView.pointData <$> MapView.points (Client.map st)
  ∧ MapView.lineData <$> MapView.lines (Client.map st')
    = MapView.lineData <$> MapView.lines (Client.map st)
  ∧ MapView.geoDataByIdentifier (Client.map st')
    = MapView.geoDataByIdentifier (Client.map st).
Proof.
  intros [Hps Hls]. cbn [Client.onFilterChange Client.app Client.map].
  split; [done|]. by apply filterEffect_visibility.
Qed.

(** The filter at work on points that are already there: after events
    of two vehicles, checking the box of the first hides the point of
    the second, and the None chip shows both again. *)
Example filter_hides_non_members :
  (λ st, (λ f, (MapView.Point.identifier f, MapView.rendered (MapView.Point.style f)))
           <$> MapView.points (Client.map st))
    <$> [ Client.run [Client.NewGeoData (Sample.event 1 "VEHICLE-001");
                      Client.NewGeoData (Sample.event 2 "VEHICLE-002");
                      Client.CheckboxChange "VEHICLE-001" true] Client.init;
          Client.run [Client.NewGeoData (Sample.event 1 "VEHICLE-001");
                      Client.NewGeoData (Sample.event 2 "VEHICLE-002");
                      Client.CheckboxChange "VEHICLE-001" true;
                      Client.ClearAll] Client.init ]
  = [ [("VEHICLE-001", true); ("VEHICLE-002", false)];
      [("VEHICLE-001", true); ("VEHICLE-002", true)] ].
Proof. vm_compute. done. Qed.

(** C4, the part that fails: the effect on subscription data adds the
    new point without a style of its own and the filter effect does not
    run again, so with the filter set to VEHICLE-001 a point that then
    arrives for VEHICLE-002 is drawn. *)
Theorem new_point_ignores_filter :
  let st := Client.run [Client.CheckboxChange "VEHICLE-001" true;
                        Client.NewGeoData (Sample.event 1 "VEHICLE-002")] Client.init in
  App.filteredIdentifiers (Client.app st) = {[ "VEHICLE-001" ]}
  ∧ (λ f, (MapView.Point.identifier f, MapView.rendered (MapView.Point.style f)))
      <$> MapView.points (Client.map st)
    = [("VEHICLE-002", true)]
  ∧ MapView.visible (App.filteredIdentifiers (Client.app st)) "VEHICLE-002" = false.
Proof. vm_compute. done. Qed.

(** ** Map.tsx: the latest flag *)

Lemma clearLatest_lookup identifier src i f :
  MapView.clearLatest identifier src !! i = Some f →
  ∃ f0, src !! i = Some f0
        ∧ MapView.Point.identifier f = MapView.Point.identifier f0
        ∧ (MapView.Point.isLatest f = true →
           MapView.Point.isLatest f0 = true
           ∧ MapView.Point.identifier f0 ≠ identifier).
Proof.
  unfold MapView.clearLatest. rewrite list_lookup_fmap.
  destruct (src !! i) as [f0|]; [|done]. simpl. intros [= <-].
  exists f0. split; [done|]. case_bool_decide as Hid; simpl.
  - destruct (MapView.Point.isLatest f0) eqn:Hl; simpl; [done|].
    rewrite Hl. done.
  - done.
Qed.

Lemma latest_is_last_clearLatest identifier src :
  MapView.latest_is_last src →
  MapView.latest_is_last (MapView.clearLatest identifier src).
Proof.
  intros Hinv i j f g Hf Hg Hid Hl.
  apply clearLatest_lookup in Hf as (f0 & Hf0 & Hidf & Hlf).
  apply clearLatest_lookup in Hg as (g0 & Hg0 & Hidg & _).
  destruct (Hlf Hl) as [Hl0 _].
  apply (Hinv i j f0 g0); congruence.
Qed.

Lemma latest_is_last_addPoint f src :
  MapView.latest_is_last src →
  (∀ i g, src !! i = Some g →
          MapView.Point.identifier g = MapView.Point.identifier f →
          MapView.Point.isLatest g = false) →
  MapView.latest_is_last (MapView.addPoint f src).
Proof.
  intros Hinv Hnone. unfold MapView.addPoint. case_bool_decide; [done|].
  intros i j a b Ha Hb Hid Hl.
  apply lookup_snoc_Some in Ha as [[Hi Ha]|[-> <-]];
    apply lookup_snoc_Some in Hb as [[Hj Hb]|[-> <-]].
  - by apply (Hinv i j a b).
  - rewrite (Hnone i a Ha Hid) in Hl. done.
  - lia.
  - done.
Qed.

Lemma latest_is_last_fmap (h : MapView.Point.t → MapView.Point.t) src :
  (∀ f, MapView.Point.identifier (h f) = MapView.Point.identifier f) →
  (∀ f, MapView.Point.isLatest (h f) = MapView.Point.isLatest f) →
  MapView.latest_is_last src → MapView.latest_is_last (h <$> src).
Proof.
  intros Hid Hl Hinv i j f g Hf Hg Hfg Hlat.
  apply list_lookup_fmap_Some in Hf as (f0 & -> & Hf0).
  apply list_lookup_fmap_Some in Hg as (g0 & -> & Hg0).
  rewrite !Hid in Hfg. rewrite Hl in Hlat.
  by apply (Hinv i j f0 g0).
Qed.

Lemma latest_is_last_dataEffect {P} (cb : GeoData.t → P → P) data p st :
  MapView.latest_is_last (MapView.points st) →
  MapView.latest_is_last (MapView.points (MapView.dataEffect cb data p st).2).
Proof.
  unfold MapView.points, MapView.dataEffect. intros Hinv.
  destruct data as [geoData|]; [|done].
  destruct (MapView.pointsSourceRef st) as [ps|] eqn:Hps;
    destruct (MapView.linesSourceRef st) as [ls|] eqn:Hls;
    simpl in *; rewrite ?Hps; try done.
  apply latest_is_last_addPoint.
  - by apply latest_is_last_clearLatest.
  - intros i g Hg Hid. simpl in Hid.
    apply clearLatest_lookup in Hg as (g0 & _ & Hid0 & Hl).
    destruct (MapView.Point.isLatest g); [|done].
    destruct Hl as [_ Hne]; [done|]. congruence.
Qed.

Lemma latest_is_last_filterEffect F st :
  MapView.latest_is_last (MapView.points st) →
  MapView.latest_is_last (MapView.points (MapView.filterEffect F st)).
Proof.
  unfold MapView.points, MapView.filterEffect. intros Hinv.
  destruct (MapView.pointsSourceRef st) as [ps|] eqn:Hps;
    destruct (MapView.linesSourceRef st) as [ls|] eqn:Hls;
    simpl in *; rewrite ?Hps; try done.
  by apply latest_is_last_fmap.
Qed.

Lemma latest_is_last_step e st :
  MapView.latest_is_last (MapView.points (Client.map st)) →
  MapView.latest_is_last (MapView.points (Client.map (Client.step e st))).
Proof.
  intros Hinv.
  destruct e; cbn [Client.step Client.onFilterChange Client.map];
    auto using latest_is_last_filterEffect.
  - pose proof (latest_is_last_dataEffect App.handleNewGeoData (Some data)
                  (Client.app st) _ Hinv).
    by destruct (MapView.dataEffect _ _ _ _).
  - unfold MapView.points in *. by rewrite (proj1 (focusEffect_frame _ _)).
Qed.

Lemma latest_is_last_run es st :
  MapView.latest_is_last (MapView.points (Client.map st)) →
  MapView.latest_is_last (MapView.points (Client.map (Client.run es st))).
Proof.
  revert st. induction es as [|e es IH]; intros st Hst; [done|].
  apply IH. by apply latest_is_last_step.
Qed.

(** The flag is not only never doubled, it is set: an event whose id is
    new to the source adds a point at the end of the source that carries
    the flag. (Ids are unique: the server numbers its events.) *)
Lemma new_point_is_latest (data : GeoData.t) (st : Client.State) :
  MapView.mounted (Client.map st) →
  GeoData.id data ∉ MapView.Point.id <$> MapView.points (Client.map st) →
  ∃ f,
    last (MapView.points (Client.map (Client.step (Client.NewGeoData data) st))) = Some f
    ∧ MapView.Point.id f = GeoData.id data
    ∧ MapView.Point.identifier f = GeoData.identifier data
    ∧ MapView.Point.isLatest f = true.
Proof.
  intros [[ps Hps] [ls Hls]] Hfresh.
  cbn [Client.step]. unfold MapView.dataEffect, MapView.points in *.
  rewrite Hps, Hls in *. simpl in *. unfold MapView.addPoint.
  assert (MapView.Point.id <$> MapView.clearLatest (GeoData.identifier data) ps
          = MapView.Point.id <$> ps) as Hids.
  { unfold MapView.clearLatest. rewrite <- list_fmap_compose.
    apply list_fmap_ext. intros i f _. simpl. by destruct (_ && _). }
  simpl. rewrite Hids. rewrite bool_decide_eq_false_2 by done.
  eexists. rewrite last_snoc. done.
Qed.

(** The scenario of the specification: three events for one entity give
    three points, only the third flagged; an event of another entity in
    between does not disturb them. *)
Example latest_flag_three_events :
  (λ f, (MapView.Point.identifier f, MapView.Point.pointIndex f, MapView.Point.isLatest f))
    <$> MapView.points (Client.map (Client.run
          [Client.NewGeoData (Sample.event 1 "VEHICLE-001");
           Client.NewGeoData (Sample.event 2 "VEHICLE-001");
           Client.NewGeoData (Sample.event 3 "VEHICLE-002");
           Client.NewGeoData (Sample.event 4 "VEHICLE-001")] Client.init))
  = [("VEHICLE-001", 1, false); ("VEHICLE-001", 2, false);
     ("VEHICLE-002", 1, true); ("VEHICLE-001", 3, true)].
Proof. vm_compute. done. Qed.

(** ** resolvers.ts: what the snapshot query returns *)

Lemma read_addGeoData geoData st :
  is_Some (Resolvers.heap st !! Resolvers.geoDataStore) →
  Resolvers.read (Resolvers.addGeoData geoData st) Resolvers.geoDataStore
    = Resolvers.read st Resolvers.geoDataStore ++ [geoData]
  ∧ is_Some (Resolvers.heap (Resolvers.addGeoData geoData st) !! Resolvers.geoDataStore).
Proof.
  intros [arr Harr]. unfold Resolvers.read, Resolvers.addGeoData, Resolvers.push.
  simpl. rewrite lookup_alter_eq, Harr. simpl. eauto.
Qed.

Lemma read_run evs st :
  is_Some (Resolvers.heap st !! Resolvers.geoDataStore) →
  Resolvers.read (Resolvers.run evs st) Resolvers.geoDataStore
    = Resolvers.read st Resolvers.geoDataStore ++ evs
  ∧ is_Some (Resolvers.heap (Resolvers.run evs st) !! Resolvers.geoDataStore).
Proof.
  revert st. induction evs as [|g evs IH]; intros st Hst; simpl.
  - by rewrite app_nil_r.
  - destruct (read_addGeoData g st Hst) as [Hr Hs].
    destruct (IH _ Hs) as [-> ?]. rewrite Hr, <- app_assoc. done.
Qed.

(** C1, as the code has it. The resolver returns the store array itself.
    Read when the call returns, it is the full sequence of events added
    so far, in order; read after further calls of [addGeoData], the same
    returned array holds those events too, appended at its end. *)
Theorem geoDataList_returns_live_store (evs later : list GeoData.t) :
  let st := Resolvers.run evs Resolvers.init in
  let snapshot := Resolvers.geoDataList st in
  snapshot = Resolvers.geoDataStore
  ∧ Resolvers.read st snapshot = evs
  ∧ Resolvers.read (Resolvers.run later st) snapshot = evs ++ later.
Proof.
  intros st snapshot. subst snapshot st. unfold Resolvers.geoDataList.
  assert (is_Some (Resolvers.heap Resolvers.init !! Resolvers.geoDataStore)) as Hinit.
  { by eexists. }
  destruct (read_run evs Resolvers.init Hinit) as [Hr Hs].
  destruct (read_run later _ Hs) as [Hr' _].
  split_and!; [done|done|]. by rewrite Hr', Hr.
Qed.

(** C1 fails as stated: the array returned by the query on the empty
    store reads as empty when the call returns and holds one event after
    the next [addGeoData]. *)
Lemma geoDataList_sees_later_append :
  Resolvers.read Resolvers.init (Resolvers.geoDataList Resolvers.init) = []
  ∧ Resolvers.read
      (Resolvers.addGeoData (Sample.event 1 "VEHICLE-001") Resolvers.init)
      (Resolvers.geoDataList Resolvers.init)
    = [Sample.event 1 "VEHICLE-001"]
  ∧ Resolvers.read
      (Resolvers.addGeoData (Sample.event 1 "VEHICLE-001") Resolvers.init)
      (Resolvers.geoDataList Resolvers.init)
    ≠ Resolvers.read Resolvers.init (Resolvers.geoDataList Resolvers.init).
Proof. split_and!; [done|done|]. by vm_compute. Qed.

(** ** geo-simulator.ts: one tick *)

Lemma clamp_bounds (lo hi x : Q) :
  (lo <= hi)%Q →
  (lo <= JS.Math_max lo (JS.Math_min hi x))%Q
  ∧ (JS.Math_max lo (JS.Math_min hi x) <= hi)%Q.
Proof.
  intros Hle. unfold JS.Math_max, JS.Math_min. split.
  - apply Q.le_max_l.
  - apply Q.max_lub; [done|apply Q.le_min_l].
Qed.

(** Rounding to six decimals keeps a number between two bounds that are
    themselves multiples of one millionth. *)
Lemma round6_bounds (L H : Z) (x : Q) :
  (inject_Z L / 1000000 <= x)%Q → (x <= inject_Z H / 1000000)%Q →
  (inject_Z L / 1000000 <= inject_Z (JS.Math_round (x * 1000000)) / 1000000)%Q
  ∧ (inject_Z (JS.Math_round (x * 1000000)) / 1000000 <= inject_Z H / 1000000)%Q.
Proof.
  unfold JS.Math_round, Qdiv.
  change (/ 1000000)%Q with (1 # 1000000)%Q. intros HL HH.
  assert (L ≤ Qfloor (x * 1000000 + (1 # 2)))%Z as HlowZ.
  { rewrite <- (Qfloor_Z L). apply Qfloor_resp_le. lra. }
  assert (Qfloor (x * 1000000 + (1 # 2)) < H + 1)%Z as HhighZ.
  { rewrite Zlt_Qlt. eapply Qle_lt_trans; [apply Qfloor_le|].
    rewrite inject_Z_plus. change (inject_Z 1) with 1%Q. lra. }
  assert (Qfloor (x * 1000000 + (1 # 2)) ≤ H)%Z as HhighZ' by lia.
  rewrite Zle_Qle in HlowZ, HhighZ'. split; lra.
Qed.

Lemma picked_in_pool pool t :
  pool ≠ [] → Tick.unit_interval (Tick.random_pick t) →
  ∃ vehicle, GeoSimulator.picked pool t = Some vehicle ∧ vehicle ∈ pool.
Proof.
  intros Hne [H0 H1]. unfold GeoSimulator.picked, JS.index, JS.Math_floor.
  assert (0 < Z.of_nat (length pool))%Z as Hlen.
  { destruct pool; [done|]. simpl. lia. }
  assert (0 < inject_Z (Z.of_nat (length pool)))%Q as Hq.
  { change 0%Q with (inject_Z 0). by rewrite <- Zlt_Qlt. }
  set (i := Qfloor _).
  assert (0 ≤ i < Z.of_nat (length pool))%Z as [Hi0 Hi1].
  { subst i. split.
    - change 0%Z with (Qfloor 0). apply Qfloor_resp_le. nra.
    - rewrite Zlt_Qlt. eapply Qle_lt_trans; [apply Qfloor_le|]. nra. }
  destruct (i <? 0)%Z eqn:Hneg; [lia|].
  destruct (lookup_lt_is_Some_2 pool (Z.to_nat i)) as [v Hv]; [lia|].
  exists v. split; [done|]. by eapply list_elem_of_lookup_2.
Qed.

(** What a call that returns has done: the picked entry, the clamped
    position stored for it, the event built from it. *)
Lemma generateRandomGeoData_Normal pool t st geoData st' :
  GeoSimulator.generateRandomGeoData pool t st = (JS.Normal geoData, st') →
  ∃ vehicle currentPos newLat newLon,
    GeoSimulator.picked pool t = Some vehicle
    ∧ GeoSimulator.currentPositions st !! Vehicle.id vehicle = Some currentPos
    ∧ newLat = JS.Math_max (GeoSimulator.minLat GeoSimulator.BOUNDS)
                 (JS.Math_min (GeoSimulator.maxLat GeoSimulator.BOUNDS)
                    (Position.lat currentPos + (Tick.random_lat t - 0.5) * 0.3))%Q
    ∧ newLon = JS.Math_max (GeoSimulator.minLon GeoSimulator.BOUNDS)
                 (JS.Math_min (GeoSimulator.maxLon GeoSimulator.BOUNDS)
                    (Position.lon currentPos + (Tick.random_lon t - 0.5) * 0.3))%Q
    ∧ GeoSimulator.currentPositions st'
      = <[Vehicle.id vehicle := Position.mk newLat newLon]>
          (GeoSimulator.currentPositions st)
    ∧ GeoSimulator.counter st' = (GeoSimulator.counter st + 1)%Z
    ∧ GeoData.identifier geoData = Vehicle.id vehicle
    ∧ GeoData.name geoData = Vehicle.name vehicle
    ∧ GeoData.lat geoData = (inject_Z (JS.Math_round (newLat * 1000000)) / 1000000)%Q
    ∧ GeoData.lon geoData = (inject_Z (JS.Math_round (newLon * 1000000)) / 1000000)%Q.
Proof.
  unfold GeoSimulator.generateRandomGeoData, GeoSimulator.picked.
  destruct (JS.index pool _) as [vehicle|]; [|done]. simpl.
  destruct (GeoSimulator.currentPositions st !! Vehicle.id vehicle)
    as [currentPos|] eqn:Hpos; [|done].
  intros [= <- <-]. exists vehicle, currentPos. eexists _, _.
  split_and!; done.
Qed.

(** With a non-empty pool, a random pick in [0, 1) and a position stored
    for every member, the call returns, and every member still has a
    position afterwards. *)
Lemma generateRandomGeoData_total pool t st :
  pool ≠ [] → Tick.valid t → GeoSimulator.positions_defined pool st →
  ∃ geoData st',
    GeoSimulator.generateRandomGeoData pool t st = (JS.Normal geoData, st')
    ∧ GeoSimulator.positions_defined pool st'.
Proof.
  intros Hne (Hpick & _ & _) Hdef.
  destruct (picked_in_pool pool t Hne Hpick) as (vehicle & Hv & Hin).
  destruct (Hdef vehicle Hin) as [currentPos Hpos].
  unfold GeoSimulator.generateRandomGeoData.
  unfold GeoSimulator.picked in Hv. rewrite Hv. simpl. rewrite Hpos.
  eexists _, _. split; [done|].
  intros w Hw. simpl. apply lookup_insert_is_Some'. right. by apply Hdef.
Qed.

Lemma positions_defined_init pool :
  GeoSimulator.positions_defined pool (GeoSimulator.init pool).
Proof.
  unfold GeoSimulator.positions_defined, GeoSimulator.init. simpl.
  assert (∀ (l : list Vehicle.t) (m : gmap string Position.t) k,
            is_Some (m !! k) ∨ k ∈ Vehicle.id <$> l →
            is_Some (foldl (λ m v, <[Vehicle.id v :=
                       Position.mk (Vehicle.lat v) (Vehicle.lon v)]> m) m l !! k)) as Hfold.
  { induction l as [|w l IH]; intros m k [Hm|Hk]; simpl.
    - done.
    - by apply elem_of_nil in Hk.
    - apply IH. left. apply lookup_insert_is_Some'. by right.
    - apply IH. apply elem_of_cons in Hk as [->|Hk]; [left|by right].
      apply lookup_insert_is_Some'. by left. }
  intros v Hv. apply Hfold. right. by apply list_elem_of_fmap_2.
Qed.

Lemma round6_BOUNDS_lat (x : Q) :
  (GeoSimulator.minLat GeoSimulator.BOUNDS <= x)%Q →
  (x <= GeoSimulator.maxLat GeoSimulator.BOUNDS)%Q →
  (35 <= inject_Z (JS.Math_round (x * 1000000)) / 1000000)%Q
  ∧ (inject_Z (JS.Math_round (x * 1000000)) / 1000000 <= 60)%Q.
Proof.
  simpl. intros Hlo Hhi.
  destruct (round6_bounds 35000000 60000000 x) as [Hl Hh].
  - change (inject_Z 35000000 / 1000000)%Q with (35000000 # 1000000)%Q. lra.
  - change (inject_Z 60000000 / 1000000)%Q with (60000000 # 1000000)%Q. lra.
  - change (inject_Z 35000000 / 1000000)%Q with (35000000 # 1000000)%Q in Hl.
    change (inject_Z 60000000 / 1000000)%Q with (60000000 # 1000000)%Q in Hh.
    split; lra.
Qed.

Lemma round6_BOUNDS_lon (x : Q) :
  (GeoSimulator.minLon GeoSimulator.BOUNDS <= x)%Q →
  (x <= GeoSimulator.maxLon GeoSimulator.BOUNDS)%Q →
  (-10 <= inject_Z (JS.Math_round (x * 1000000)) / 1000000)%Q
  ∧ (inject_Z (JS.Math_round (x * 1000000)) / 1000000 <= 30)%Q.
Proof.
  simpl. intros Hlo Hhi.
  destruct (round6_bounds (-10000000) 30000000 x) as [Hl Hh].
  - change (inject_Z (-10000000) / 1000000)%Q with (-10000000 # 1000000)%Q. lra.
  - change (inject_Z 30000000 / 1000000)%Q with (30000000 # 1000000)%Q. lra.
  - change (inject_Z (-10000000) / 1000000)%Q with (-10000000 # 1000000)%Q in Hl.
    change (inject_Z 30000000 / 1000000)%Q with (30000000 # 1000000)%Q in Hh.
    split; lra.
Qed.

(** C6. Every event that [generateRandomGeoData] returns has its
    latitude between 35 and 60 and its longitude between -10 and 30,
    the bounds of [BOUNDS], after the rounding to six decimals. This
    holds for any pool, any stored positions and any random numbers;
    that the call does return an event with the pool of the module is
    [generateRandomGeoData_total]. *)
Theorem generated_event_within_bounds
    (pool : list Vehicle.t) (t : Tick.t) (st st' : GeoSimulator.State)
    (geoData : GeoData.t) :
  GeoSimulator.generateRandomGeoData pool t st = (JS.Normal geoData, st') →
  ((GeoSimulator.minLat GeoSimulator.BOUNDS <= GeoData.lat geoData)%Q
   ∧ (GeoData.lat geoData <= GeoSimulator.maxLat GeoSimulator.BOUNDS)%Q
   ∧ (GeoSimulator.minLon GeoSimulator.BOUNDS <= GeoData.lon geoData)%Q
   ∧ (GeoData.lon geoData <= GeoSimulator.maxLon GeoSimulator.BOUNDS)%Q)
  ∧ ((35 <= GeoData.lat geoData)%Q ∧ (GeoData.lat geoData <= 60)%Q
     ∧ (-10 <= GeoData.lon geoData)%Q ∧ (GeoData.lon geoData <= 30)%Q).
Proof.
  intros Hgen.
  apply generateRandomGeoData_Normal in Hgen
    as (vehicle & currentPos & newLat & newLon & _ & _ & HnewLat & HnewLon
        & _ & _ & _ & _ & -> & ->).
  destruct (clamp_bounds (GeoSimulator.minLat GeoSimulator.BOUNDS)
              (GeoSimulator.maxLat GeoSimulator.BOUNDS)
              (Position.lat currentPos + (Tick.random_lat t - 0.5) * 0.3))
    as [Hlat0 Hlat1]; [simpl; lra|].
  destruct (clamp_bounds (GeoSimulator.minLon GeoSimulator.BOUNDS)
              (GeoSimulator.maxLon GeoSimulator.BOUNDS)
              (Position.lon currentPos + (Tick.random_lon t - 0.5) * 0.3))
    as [Hlon0 Hlon1]; [simpl; lra|].
  rewrite <- HnewLat in Hlat0, Hlat1. rewrite <- HnewLon in Hlon0, Hlon1.
  destruct (round6_BOUNDS_lat newLat Hlat0 Hlat1) as [? ?].
  destruct (round6_BOUNDS_lon newLon Hlon0 Hlon1) as [? ?].
  simpl. split_and!; lra.
Qed.

Lemma generated_event_within_bounds_witness :
  ∃ geoData st',
    GeoSimulator.generateRandomGeoData GeoSimulator.IDENTIFIER_POOL Sample.tick
      Sample.near_north = (JS.Normal geoData, st')
    ∧ GeoData.identifier geoData = "VEHICLE-002"
    ∧ (GeoData.lat geoData == 60)%Q
    ∧ (35 <= GeoData.lat geoData)%Q ∧ (GeoData.lat geoData <= 60)%Q
    ∧ (-10 <= GeoData.lon geoData)%Q ∧ (GeoData.lon geoData <= 30)%Q.
Proof.
  eexists _, _. split; [vm_compute; reflexivity|].
  split; [reflexivity|]. split; [reflexivity|].
  eapply (generated_event_within_bounds GeoSimulator.IDENTIFIER_POOL Sample.tick
            Sample.near_north).
  vm_compute. reflexivity.
Defined.

(** Rounding up can reach a bound but not pass it: from latitude
    59.9999996 and a zero step the event carries latitude 60. *)
Example rounding_reaches_bound :
  match GeoSimulator.generateRandomGeoData GeoSimulator.IDENTIFIER_POOL
          {| Tick.random_pick := 0.3; Tick.random_lat := 0.5; Tick.random_lon := 0.5;
             Tick.now := 1735689600000; Tick.iso := "2025-01-01T00:00:00.000Z" |}
          Sample.near_north with
  | (JS.Normal geoData, st') =>
      Qred (GeoData.lat geoData) = 60%Q
      ∧ (Qred ∘ Position.lat <$> GeoSimulator.currentPositions st' !! "VEHICLE-002")
        = Some (Qred 59.9999996%Q)
      ∧ GeoData.id geoData = "geo-1735689600000-8"
  | _ => False
  end.
Proof. vm_compute. done. Qed.

(** C8. A call of [generateRandomGeoData] that returns writes the stored
    position of exactly one pool member, the one it picked: the position
    it stores for that member is the member's previous position moved by
    [(Math.random() - 0.5) * 0.3] on each axis and clamped to [BOUNDS],
    and the event is that of the picked member. The position of every
    other member of the pool (the ids of the pool being distinct) and of
    every other key of the map is what it was. *)
Theorem tick_moves_only_the_picked_member
    (pool : list Vehicle.t) (t : Tick.t) (st st' : GeoSimulator.State)
    (geoData : GeoData.t) :
  NoDup (Vehicle.id <$> pool) →
  GeoSimulator.generateRandomGeoData pool t st = (JS.Normal geoData, st') →
  ∃ vehicle old,
    GeoSimulator.picked pool t = Some vehicle
    ∧ vehicle ∈ pool
    ∧ GeoData.identifier geoData = Vehicle.id vehicle
    ∧ GeoSimulator.currentPositions st !! Vehicle.id vehicle = Some old
    ∧ (let newPos :=
         Position.mk
           (JS.Math_max (GeoSimulator.minLat GeoSimulator.BOUNDS)
              (JS.Math_min (GeoSimulator.maxLat GeoSimulator.BOUNDS)
                 (Position.lat old + (Tick.random_lat t - 0.5) * 0.3)%Q))
           (JS.Math_max (GeoSimulator.minLon GeoSimulator.BOUNDS)
              (JS.Math_min (GeoSimulator.maxLon GeoSimulator.BOUNDS)
                 (Position.lon old + (Tick.random_lon t - 0.5) * 0.3)%Q)) in
       GeoSimulator.currentPositions st'
       = <[Vehicle.id vehicle := newPos]> (GeoSimulator.currentPositions st)
       ∧ GeoSimulator.currentPositions st' !! Vehicle.id vehicle = Some newPos
       ∧ Simulation.within_BOUNDS newPos)
    ∧ (∀ other, other ∈ pool → other ≠ vehicle →
         GeoSimulator.currentPositions st' !! Vehicle.id other
         = GeoSimulator.currentPositions st !! Vehicle.id other)
    ∧ (∀ key, key ≠ Vehicle.id vehicle →
         GeoSimulator.currentPositions st' !! key
         = GeoSimulator.currentPositions st !! key).
Proof.
  intros Hnodup Hgen.
  apply generateRandomGeoData_Normal in Hgen
    as (vehicle & old & newLat & newLon & Hpick & Hold & -> & -> & Hpos & _
        & Hid & _).
  assert (vehicle ∈ pool) as Hin.
  { unfold GeoSimulator.picked, JS.index in Hpick.
    destruct (_ <? 0)%Z; [done|]. by eapply list_elem_of_lookup_2. }
  exists vehicle, old. rewrite Hpos.
  split_and!; try done.
  - cbn zeta. split_and!; try done.
    + apply lookup_insert_eq.
    + unfold Simulation.within_BOUNDS. cbn [Position.lat Position.lon].
      destruct (clamp_bounds (GeoSimulator.minLat GeoSimulator.BOUNDS)
                  (GeoSimulator.maxLat GeoSimulator.BOUNDS)
                  (Position.lat old + (Tick.random_lat t - 0.5) * 0.3))
        as [? ?]; [simpl; lra|].
      destruct (clamp_bounds (GeoSimulator.minLon GeoSimulator.BOUNDS)
                  (GeoSimulator.maxLon GeoSimulator.BOUNDS)
                  (Position.lon old + (Tick.random_lon t - 0.5) * 0.3))
        as [? ?]; [simpl; lra|].
      done.
  - intros other Hother Hne. apply lookup_insert_ne. intros Heq. apply Hne.
    apply list_elem_of_lookup in Hin as [i Hi].
    apply list_elem_of_lookup in Hother as [j Hj].
    assert (i = j) as ->; [|congruence].
    eapply NoDup_lookup; [exact Hnodup| |].
    + rewrite list_lookup_fmap, Hi. done.
    + rewrite list_lookup_fmap, Hj. simpl. by rewrite Heq.
  - intros key Hne. by apply lookup_insert_ne.
Qed.

Lemma IDENTIFIER_POOL_ids_distinct :
  NoDup (Vehicle.id <$> GeoSimulator.IDENTIFIER_POOL).
Proof. apply (bool_decide_unpack _). by vm_compute. Qed.

Lemma tick_moves_only_the_picked_member_witness :
  ∃ old,
    GeoSimulator.currentPositions (GeoSimulator.init GeoSimulator.IDENTIFIER_POOL)
      !! "VEHICLE-002" = Some old
    ∧ GeoSimulator.currentPositions
        (GeoSimulator.generateRandomGeoData GeoSimulator.IDENTIFIER_POOL Sample.tick
           (GeoSimulator.init GeoSimulator.IDENTIFIER_POOL)).2
      = <["VEHICLE-002" :=
            Position.mk
              (JS.Math_max (GeoSimulator.minLat GeoSimulator.BOUNDS)
                 (JS.Math_min (GeoSimulator.maxLat GeoSimulator.BOUNDS)
                    (Position.lat old + (Tick.random_lat Sample.tick - 0.5) * 0.3)%Q))
              (JS.Math_max (GeoSimulator.minLon GeoSimulator.BOUNDS)
                 (JS.Math_min (GeoSimulator.maxLon GeoSimulator.BOUNDS)
                    (Position.lon old + (Tick.random_lon Sample.tick - 0.5) * 0.3)%Q))]>
          (GeoSimulator.currentPositions (GeoSimulator.init GeoSimulator.IDENTIFIER_POOL)).
Proof.
  destruct (generateRandomGeoData_total GeoSimulator.IDENTIFIER_POOL Sample.tick
              (GeoSimulator.init GeoSimulator.IDENTIFIER_POOL))
    as (geoData & st' & Hgen & _).
  { done. }
  { repeat split; vm_compute; congruence. }
  { apply positions_defined_init. }
  destruct (tick_moves_only_the_picked_member GeoSimulator.IDENTIFIER_POOL Sample.tick
              (GeoSimulator.init GeoSimulator.IDENTIFIER_POOL) st' geoData
              IDENTIFIER_POOL_ids_distinct Hgen)
    as (vehicle & old & Hpick & _ & _ & Hold & (Hpos & _) & _).
  vm_compute in Hpick. injection Hpick as <-.
  exists old. split; [exact Hold|]. rewrite Hgen. exact Hpos.
Defined.

(** ** geo-simulator.ts: starting the simulator *)

Lemma tick_total pool t sim store :
  pool ≠ [] → Tick.valid t → GeoSimulator.positions_defined pool sim →
  ∃ geoData sim',
    GeoSimulator.tick pool t (sim, store)
      = (JS.Normal (), (sim', Resolvers.addGeoData geoData store))
    ∧ GeoSimulator.positions_defined pool sim'.
Proof.
  intros Hne Ht Hdef.
  destruct (generateRandomGeoData_total pool t sim Hne Ht Hdef)
    as (geoData & sim' & Hgen & Hdef').
  exists geoData, sim'. unfold GeoSimulator.tick. simpl. by rewrite Hgen.
Qed.

(** C7, as the code has it. [startGeoSimulator] checks nothing: for any
    pool and any interval it installs the timer (period 5000 ms by
    default). The pool of the module is the fixed list of five vehicles,
    and with it every tick, from the initial positions or any later ones,
    produces an event and hands it to [addGeoData]. *)
Theorem simulator_starts_without_validation :
  (∀ pool interval,
     GeoSimulator.startGeoSimulator pool interval
     = JS.Normal {| GeoSimulator.intervalMs := default 5000%Z interval;
                    GeoSimulator.callback := GeoSimulator.tick pool |})
  ∧ length GeoSimulator.IDENTIFIER_POOL = 5
  ∧ GeoSimulator.positions_defined GeoSimulator.IDENTIFIER_POOL
      (GeoSimulator.init GeoSimulator.IDENTIFIER_POOL)
  ∧ (∀ t sim store,
       Tick.valid t →
       GeoSimulator.positions_defined GeoSimulator.IDENTIFIER_POOL sim →
       ∃ geoData sim',
         GeoSimulator.tick GeoSimulator.IDENTIFIER_POOL t (sim, store)
           = (JS.Normal (), (sim', Resolvers.addGeoData geoData store))
         ∧ GeoSimulator.positions_defined GeoSimulator.IDENTIFIER_POOL sim').
Proof.
  split_and!; [done|done|apply positions_defined_init|].
  intros t sim store. by apply tick_total.
Qed.

Lemma simulator_starts_without_validation_witness :
  ∃ geoData sim',
    GeoSimulator.tick GeoSimulator.IDENTIFIER_POOL Sample.tick
      (GeoSimulator.init GeoSimulator.IDENTIFIER_POOL, Resolvers.init)
    = (JS.Normal (), (sim', Resolvers.addGeoData geoData Resolvers.init))
    ∧ GeoSimulator.positions_defined GeoSimulator.IDENTIFIER_POOL sim'.
Proof.
  destruct simulator_starts_without_validation as (_ & _ & Hinit & Htick).
  apply (Htick Sample.tick).
  - repeat split; vm_compute; congruence.
  - exact Hinit.
Defined.

(** C7 fails as stated: with an empty pool [startGeoSimulator] starts
    all the same, and it is the tick that throws, a [TypeError] on
    [vehicle.id], with nothing added to the store. *)
Lemma empty_pool_starts_and_tick_throws :
  JS.is_Normal (GeoSimulator.startGeoSimulator [] None) = true
  ∧ GeoSimulator.tick [] Sample.tick (GeoSimulator.init [], Resolvers.init)
    = (JS.Throw JS.TypeError,
       ({| GeoSimulator.currentPositions := ∅; GeoSimulator.counter := 1 |},
        Resolvers.init)).
Proof. split; [done|]. by vm_compute. Qed.

(** ** The client as a whole: scenarios and the filter over time *)

(** Two events arrive, the notification of the first is clicked: it
    leaves the notification list, its trail keeps it. *)
Lemma notification_click_frame_witness :
  App.notifications
    (Client.app
       (Client.step (Client.NotificationClick (Sample.event 1 "VEHICLE-001"))
          (Client.run [Client.NewGeoData (Sample.event 1 "VEHICLE-001");
                       Client.NewGeoData (Sample.event 2 "VEHICLE-001")] Client.init)))
  = [Sample.event 2 "VEHICLE-001"]
  ∧ ∃ trail',
      MapView.geoDataByIdentifier
        (Client.map
           (Client.step (Client.NotificationClick (Sample.event 1 "VEHICLE-001"))
              (Client.run [Client.NewGeoData (Sample.event 1 "VEHICLE-001");
                           Client.NewGeoData (Sample.event 2 "VEHICLE-001")] Client.init)))
        !! "VEHICLE-001" = Some trail'
      ∧ Sample.event 1 "VEHICLE-001" ∈ trail'.
Proof.
  destruct (notification_click_frame (Sample.event 1 "VEHICLE-001")
              (Client.run [Client.NewGeoData (Sample.event 1 "VEHICLE-001");
                           Client.NewGeoData (Sample.event 2 "VEHICLE-001")] Client.init))
    as (Hn & _ & _ & _ & _ & _ & _ & Htrail).
  split.
  - rewrite Hn. vm_compute. reflexivity.
  - apply (Htrail [Sample.event 1 "VEHICLE-001"; Sample.event 2 "VEHICLE-001"]).
    + vm_compute. reflexivity.
    + apply list_elem_of_here.
Defined.

(** A feature the filter admits is always drawn: at every moment, not
    only right after a filter change. With an empty set this is every
    feature. (The converse does not hold at every moment: a point that
    arrives after the last filter change is drawn whatever the set.) *)
Lemma admitted_features_rendered (es : list Client.Event) :
  let st := Client.run es Client.init in
  (∀ f, f ∈ MapView.points (Client.map st) →
        MapView.visible (App.filteredIdentifiers (Client.app st))
          (MapView.Point.identifier f) = true →
        MapView.rendered (MapView.Point.style f) = true)
  ∧ (∀ f, f ∈ MapView.lines (Client.map st) →
          MapView.visible (App.filteredIdentifiers (Client.app st))
            (MapView.Line.identifier f) = true →
          MapView.rendered (MapView.Line.style f) = true).
Proof.
  unfold Client.run. induction es as [|e es IH] using rev_ind.
  { split; intros f Hf; by apply elem_of_nil in Hf. }
  rewrite foldl_app. simpl.
  set (st := foldl (λ s e, Client.step e s) Client.init es) in *.
  assert (MapView.mounted (Client.map st)) as Hm.
  { apply (mounted_run es), mounted_init. }
  destruct IH as [IHp IHl].
  assert (∀ F, let st' := Client.onFilterChange F st in
    (∀ f, f ∈ MapView.points (Client.map st') →
       MapView.visible (App.filteredIdentifiers (Client.app st'))
         (MapView.Point.identifier f) = true →
       MapView.rendered (MapView.Point.style f) = true)
    ∧ (∀ f, f ∈ MapView.lines (Client.map st') →
       MapView.visible (App.filteredIdentifiers (Client.app st'))
         (MapView.Line.identifier f) = true →
       MapView.rendered (MapView.Line.style f) = true)) as Hfilter.
  { intros F.
    destruct (filter_change_visibility F st Hm) as (HF & Hp & Hl & _).
    simpl. split; intros f Hf Hv; [apply Hp|apply Hl]; try done;
      by apply visible_spec. }
  destruct e; cbn [Client.step]; try apply Hfilter.
  - (* new data *)
    destruct Hm as [[ps Hps] [ls Hls]].
    unfold MapView.dataEffect, MapView.points, MapView.lines in *.
    rewrite Hps, Hls in *. simpl in *. split.
    + intros f Hf Hv. unfold MapView.addPoint in Hf.
      assert (f ∈ MapView.clearLatest (GeoData.identifier data) ps
              ∨ MapView.Point.style f = None) as [Hin| ->]; [|  |done].
      { case_bool_decide; [by left|].
        apply elem_of_app in Hf as [?|Hf]; [by left|].
        apply list_elem_of_singleton in Hf as ->. by right. }
      apply list_elem_of_fmap in Hin as (f0 & -> & Hf0).
      specialize (IHp f0 Hf0).
      destruct (_ && _); simpl in *; by apply IHp.
    + intros f Hf Hv.
      assert ((∃ f0, f0 ∈ ls
                 ∧ MapView.Line.identifier f = MapView.Line.identifier f0
                 ∧ MapView.Line.style f = MapView.Line.style f0)
              ∨ MapView.Line.style f = None) as [(f0 & Hf0 & Hid & Hst)| ->];
        [| |done].
      { case_bool_decide; [|left; by exists f].
        destruct (MapView.getFeatureById _ ls).
        - apply list_elem_of_fmap in Hf as (f0 & -> & Hf0). left. exists f0.
          by case_bool_decide.
        - unfold MapView.addLine in Hf. case_bool_decide; [left; by exists f|].
          apply elem_of_app in Hf as [?|Hf]; [left; by exists f|].
          apply list_elem_of_singleton in Hf as ->. by right. }
      rewrite Hst. apply IHl; [done|]. by rewrite <- Hid.
  - (* notification click *)
    unfold MapView.points, MapView.lines in *.
    cbn [Client.app Client.map App.handleNotificationClick App.filteredIdentifiers].
    destruct (focusEffect_frame
                (App.focusPoint (App.handleNotificationClick data (Client.app st)))
                (Client.map st)) as (-> & -> & _).
    done.
  - (* clear all notifications *)
    done.
Qed.

(** * Further properties of the code *)

(** ** resolvers.ts: the store and the published log *)

Lemma published_run evs st :
  Resolvers.published (Resolvers.run evs st)
  = Resolvers.published st ++ ((λ g, (Resolvers.NEW_GEO_DATA, g)) <$> evs).
Proof.
  revert st. induction evs as [|g evs IH]; intros st; simpl.
  - by rewrite app_nil_r.
  - rewrite IH. simpl. by rewrite <- app_assoc.
Qed.

(** Every event passed to [addGeoData] is pushed onto the store and
    published on [NEW_GEO_DATA] exactly once, in the order of the calls:
    after the calls for [evs] the store reads [evs] and the log of
    [pubsub.publish] is [evs], each under the topic. From any state, the
    calls extend the log by exactly these entries. *)
Theorem every_stored_event_is_published_once (evs : list GeoData.t) :
  Resolvers.read (Resolvers.run evs Resolvers.init) Resolvers.geoDataStore = evs
  ∧ Resolvers.published (Resolvers.run evs Resolvers.init)
    = (λ g, (Resolvers.NEW_GEO_DATA, g)) <$> evs
  ∧ ∀ st, Resolvers.published (Resolvers.run evs st)
          = Resolvers.published st ++ ((λ g, (Resolvers.NEW_GEO_DATA, g)) <$> evs).
Proof.
  split_and!.
  - destruct (read_run evs Resolvers.init) as [-> _]; [by eexists|done].
  - by rewrite published_run.
  - intros st. apply published_run.
Qed.

(** ** geo-simulator.ts: what a tick keeps *)

Lemma generateRandomGeoData_Throw pool t st e st' :
  GeoSimulator.generateRandomGeoData pool t st = (JS.Throw e, st') →
  GeoSimulator.currentPositions st' = GeoSimulator.currentPositions st
  ∧ GeoSimulator.counter st' = (GeoSimulator.counter st + 1)%Z.
Proof.
  unfold GeoSimulator.generateRandomGeoData.
  destruct (JS.index pool _) as [vehicle|]; simpl.
  - destruct (GeoSimulator.currentPositions st !! Vehicle.id vehicle); [done|].
    by intros [= <- <-].
  - by intros [= <- <-].
Qed.

(** A call of [generateRandomGeoData], whether it returns or throws,
    neither adds an entity to [currentPositions] nor removes one, and
    it advances [counter] by one. *)
Theorem tick_keeps_the_entities_and_counts_the_call
    (pool : list Vehicle.t) (t : Tick.t) (st : GeoSimulator.State) :
  dom (GeoSimulator.currentPositions (GeoSimulator.generateRandomGeoData pool t st).2)
  = dom (GeoSimulator.currentPositions st)
  ∧ GeoSimulator.counter (GeoSimulator.generateRandomGeoData pool t st).2
    = (GeoSimulator.counter st + 1)%Z.
Proof.
  destruct (GeoSimulator.generateRandomGeoData pool t st) as [[geoData|e] st'] eqn:Hgen.
  - apply generateRandomGeoData_Normal in Hgen
      as (vehicle & currentPos & newLat & newLon & _ & Hpos & _ & _ & Hst' & Hc & _).
    simpl. rewrite Hst'. split; [|done].
    apply dom_insert_lookup_L. by eexists.
  - simpl. apply generateRandomGeoData_Throw in Hgen as [-> ->]. done.
Qed.

Lemma clamp_step (lo hi p d : Q) :
  (lo <= p)%Q → (p <= hi)%Q →
  (Qmin 0 d <= JS.Math_max lo (JS.Math_min hi (p + d)) - p)%Q
  ∧ (JS.Math_max lo (JS.Math_min hi (p + d)) - p <= Qmax 0 d)%Q.
Proof.
  intros Hlo Hhi. unfold JS.Math_max, JS.Math_min.
  destruct (Q.max_spec lo (Qmin hi (p + d))) as [[? ->]|[? ->]];
    destruct (Q.min_spec hi (p + d)) as [[? Hm]|[? Hm]]; try rewrite Hm in *;
    destruct (Q.max_spec 0 d) as [[? ->]|[? ->]];
    destruct (Q.min_spec 0 d) as [[? ->]|[? ->]]; split; lra.
Qed.

(** With random numbers in [0, 1) and stored positions inside [BOUNDS],
    a tick moves the stored position of the picked entity by less than
    0.150001 degrees on each axis: the step drawn is at most 0.15 and
    clamping never lengthens it. *)
Theorem tick_step_is_small
    (pool : list Vehicle.t) (t : Tick.t) (st st' : GeoSimulator.State)
    (geoData : GeoData.t) :
  Tick.valid t →
  (∀ key p, GeoSimulator.currentPositions st !! key = Some p →
            Simulation.within_BOUNDS p) →
  GeoSimulator.generateRandomGeoData pool t st = (JS.Normal geoData, st') →
  ∃ old new,
    GeoSimulator.currentPositions st !! GeoData.identifier geoData = Some old
    ∧ GeoSimulator.currentPositions st' !! GeoData.identifier geoData = Some new
    ∧ (- 0.150001 < Position.lat new - Position.lat old)%Q
    ∧ (Position.lat new - Position.lat old < 0.150001)%Q
    ∧ (- 0.150001 < Position.lon new - Position.lon old)%Q
    ∧ (Position.lon new - Position.lon old < 0.150001)%Q.
Proof.
  intros (_ & [Hlat0 Hlat1] & [Hlon0 Hlon1]) Hin Hgen.
  apply generateRandomGeoData_Normal in Hgen
    as (vehicle & old & newLat & newLon & _ & Hold & -> & -> & Hst' & _ & Hid & _).
  destruct (Hin _ _ Hold) as (Ha & Hb & Hc & Hd).
  exists old. eexists. rewrite Hid, Hst', lookup_insert_eq.
  split; [done|]. split; [done|]. cbn [Position.lat Position.lon].
  unfold Simulation.within_BOUNDS in *.
  destruct (clamp_step _ _ _ ((Tick.random_lat t - 0.5) * 0.3) Ha Hb) as [H1 H2].
  destruct (clamp_step _ _ _ ((Tick.random_lon t - 0.5) * 0.3) Hc Hd) as [H3 H4].
  destruct (Q.max_spec 0 ((Tick.random_lat t - 0.5) * 0.3)) as [[? E1]|[? E1]];
    destruct (Q.min_spec 0 ((Tick.random_lat t - 0.5) * 0.3)) as [[? E2]|[? E2]];
    destruct (Q.max_spec 0 ((Tick.random_lon t - 0.5) * 0.3)) as [[? E3]|[? E3]];
    destruct (Q.min_spec 0 ((Tick.random_lon t - 0.5) * 0.3)) as [[? E4]|[? E4]];
    rewrite E1 in H2; rewrite E2 in H1; rewrite E3 in H4; rewrite E4 in H3;
    split_and!; lra.
Qed.




(** ** geo-simulator.ts: the ids of the events *)

Lemma append_cons (c : Ascii.ascii) (a s : string) :
  String c a +:+ s = String c (a +:+ s).
Proof. done. Qed.

Lemma append_nil (s : string) : "" +:+ s = s.
Proof. done. Qed.

Lemma pretty_N_go_no_dash (x : N) (s : string) :
  (∀ a b, s ≠ a +:+ "-" +:+ b) →
  ∀ a b, pretty_N_go x s ≠ a +:+ "-" +:+ b.
Proof.
  revert s. induction (N.lt_wf_0 x) as [x _ IH]; intros s Hs.
  assert (x = 0 ∨ 0 < x)%N as [->|Hpos] by lia.
  - by rewrite pretty_N_go_0.
  - rewrite pretty_N_go_step by done. apply IH; [by apply N.div_lt|].
    intros [|c a] b; rewrite ?append_nil, ?append_cons.
    + intros [= Hc _]. unfold pretty_N_char in Hc. by repeat case_match.
    + intros [= _ Heq]. by apply (Hs a b).
Qed.

Lemma pretty_counter_no_dash (c : Z) :
  (0 < c)%Z → ∀ a b, pretty c ≠ a +:+ "-" +:+ b.
Proof.
  intros Hc. destruct c as [|p|p]; [lia| |lia].
  unfold pretty, pretty_Z, pretty, pretty_positive, pretty, pretty_N.
  case_decide; [done|]. apply pretty_N_go_no_dash.
  intros [|??] ?; by rewrite ?append_nil, ?append_cons.
Qed.

Lemma split_at_last_dash (l1 l2 m1 m2 : string) :
  (∀ a b, m1 ≠ a +:+ "-" +:+ b) →
  (∀ a b, m2 ≠ a +:+ "-" +:+ b) →
  l1 +:+ "-" +:+ m1 = l2 +:+ "-" +:+ m2 →
  l1 = l2 ∧ m1 = m2.
Proof.
  intros H1 H2. revert l2.
  induction l1 as [|c l1 IH]; intros [|c' l2];
    rewrite ?append_nil, ?append_cons, ?append_nil.
  - by intros [= ->].
  - intros [= _ Heq]. by destruct (H1 l2 m2).
  - intros [= _ Heq]. by destruct (H2 l1 m1).
  - intros [= -> Heq]. destruct (IH _ Heq) as [-> ->]. done.
Qed.

Lemma eventId_inj (now1 now2 c1 c2 : Z) :
  (0 < c1)%Z → (0 < c2)%Z →
  Simulation.eventId now1 c1 = Simulation.eventId now2 c2 →
  now1 = now2 ∧ c1 = c2.
Proof.
  intros Hc1 Hc2. unfold Simulation.eventId. intros Heq.
  apply (inj (String.append "geo-")) in Heq.
  apply split_at_last_dash in Heq as [Hn Hc];
    [|by apply pretty_counter_no_dash..].
  split; by eapply (inj pretty).
Qed.

Lemma generateRandomGeoData_id pool t st geoData st' :
  GeoSimulator.generateRandomGeoData pool t st = (JS.Normal geoData, st') →
  GeoData.id geoData
  = Simulation.eventId (Tick.now t) (GeoSimulator.counter st + 1).
Proof.
  unfold GeoSimulator.generateRandomGeoData.
  destruct (JS.index pool _) as [vehicle|]; [|done]. simpl.
  destruct (GeoSimulator.currentPositions st !! Vehicle.id vehicle); [|done].
  by intros [= <- <-].
Qed.


(** ** geo-simulator.ts: runs of the timer *)

Lemma run_invariant (P : GeoSimulator.State * Resolvers.State → Prop) pool :
  (∀ t st, P st → P (GeoSimulator.tick pool t st).2) →
  ∀ ts st, P st → P (Simulation.run pool ts st).2.
Proof.
  intros Hstep ts. induction ts as [|t ts IH]; intros st Hst; [done|].
  simpl. pose proof (Hstep t st Hst) as Hnext.
  destruct (GeoSimulator.tick pool t st) as [[[]|e] st']; simpl in *; auto.
Qed.

Lemma tick_cases pool t sim store :
  (∃ geoData sim',
     GeoSimulator.generateRandomGeoData pool t sim = (JS.Normal geoData, sim')
     ∧ GeoSimulator.tick pool t (sim, store)
       = (JS.Normal (), (sim', Resolvers.addGeoData geoData store)))
  ∨ (∃ e sim',
       GeoSimulator.generateRandomGeoData pool t sim = (JS.Throw e, sim')
       ∧ GeoSimulator.tick pool t (sim, store) = (JS.Throw e, (sim', store))).
Proof.
  unfold GeoSimulator.tick. simpl.
  destruct (GeoSimulator.generateRandomGeoData pool t sim) as [[g|e] sim'];
    [left|right]; eauto.
Qed.

(** The events in the store have pairwise distinct ids, whatever the
    clock and the random numbers were: the counter in the id tells them
    apart. *)
Theorem event_ids_are_distinct (pool : list Vehicle.t) (ts : list Tick.t) :
  NoDup (GeoData.id <$>
           Resolvers.read
             (Simulation.run pool ts (GeoSimulator.init pool, Resolvers.init)).2.2
             Resolvers.geoDataStore).
Proof.
  set (P := λ st : GeoSimulator.State * Resolvers.State,
         (0 ≤ GeoSimulator.counter st.1)%Z
         ∧ is_Some (Resolvers.heap st.2 !! Resolvers.geoDataStore)
         ∧ NoDup (GeoData.id <$> Resolvers.read st.2 Resolvers.geoDataStore)
         ∧ ∀ g, g ∈ Resolvers.read st.2 Resolvers.geoDataStore →
                ∃ now c, GeoData.id g = Simulation.eventId now c
                         ∧ (0 < c ≤ GeoSimulator.counter st.1)%Z).
  cut (P (Simulation.run pool ts (GeoSimulator.init pool, Resolvers.init)).2).
  { by intros (_ & _ & ? & _). }
  apply run_invariant.
  - intros t [sim store] (Hc & Hs & Hnd & Hids). subst P. cbn [fst snd] in *.
    destruct (tick_cases pool t sim store)
      as [(g & sim' & Hgen & ->)|(e & sim' & Hgen & ->)]; cbn [fst snd].
    + pose proof (generateRandomGeoData_id _ _ _ _ _ Hgen) as Hid.
      apply generateRandomGeoData_Normal in Hgen
        as (_ & _ & _ & _ & _ & _ & _ & _ & _ & Hcount & _).
      destruct (read_addGeoData g store Hs) as [Hr Hs'].
      rewrite Hr, Hcount. split_and!; [lia|done| |].
      * rewrite fmap_app. apply NoDup_app. split_and!; [done| |apply NoDup_singleton].
        intros i Hi Hi'. apply list_elem_of_singleton in Hi' as ->.
        apply list_elem_of_fmap in Hi as (g' & Hg' & Hin).
        destruct (Hids g' Hin) as (now & c & Hgc & Hrange).
        rewrite Hid, Hgc in Hg'. apply eventId_inj in Hg' as [_ ?]; lia.
      * intros g' [Hin| ->%list_elem_of_singleton]%elem_of_app.
        -- destruct (Hids g' Hin) as (now & c & ? & ?). exists now, c. split; [done|lia].
        -- eexists _, _. split; [done|lia].
    + apply generateRandomGeoData_Throw in Hgen as [_ Hcount].
      rewrite Hcount. split_and!; [lia|done|done|].
      intros g' Hin. destruct (Hids g' Hin) as (now & c & ? & ?).
      exists now, c. split; [done|lia].
  - subst P. cbn [fst snd]. split_and!; [done|by eexists|apply NoDup_nil_2|].
    intros g Hg. by apply elem_of_nil in Hg.
Qed.

Lemma init_positions pool key p :
  GeoSimulator.currentPositions (GeoSimulator.init pool) !! key = Some p →
  ∃ v, v ∈ pool ∧ key = Vehicle.id v
       ∧ p = Position.mk (Vehicle.lat v) (Vehicle.lon v).
Proof.
  unfold GeoSimulator.init. simpl.
  assert (∀ (l : list Vehicle.t) (m : gmap string Position.t),
            foldl (λ m v, <[Vehicle.id v :=
                     Position.mk (Vehicle.lat v) (Vehicle.lon v)]> m) m l !! key = Some p →
            m !! key = Some p
            ∨ ∃ v, v ∈ l ∧ key = Vehicle.id v
                   ∧ p = Position.mk (Vehicle.lat v) (Vehicle.lon v)) as Hfold.
  { induction l as [|w l IH]; intros m Hm; simpl in *; [by left|].
    destruct (IH _ Hm) as [Hin|(v & ? & ? & ?)].
    - apply lookup_insert_Some in Hin as [[<- <-]|[_ ?]]; [|by left].
      right. exists w. split; [apply list_elem_of_here|done].
    - right. exists v. split; [by apply list_elem_of_further|done]. }
  intros Hp. destruct (Hfold _ _ Hp) as [Hempty|?]; [|done].
  by rewrite lookup_empty in Hempty.
Qed.

Lemma IDENTIFIER_POOL_within_BOUNDS :
  Forall (λ v, Simulation.within_BOUNDS (Position.mk (Vehicle.lat v) (Vehicle.lon v)))
         GeoSimulator.IDENTIFIER_POOL.
Proof.
  repeat constructor; unfold Simulation.within_BOUNDS; simpl; lra.
Qed.

Lemma generateRandomGeoData_within pool t st :
  (∀ key p, GeoSimulator.currentPositions st !! key = Some p →
            Simulation.within_BOUNDS p) →
  ∀ key p,
    GeoSimulator.currentPositions (GeoSimulator.generateRandomGeoData pool t st).2
      !! key = Some p →
    Simulation.within_BOUNDS p.
Proof.
  intros Hin key p.
  destruct (GeoSimulator.generateRandomGeoData pool t st) as [[geoData|e] st'] eqn:Hgen;
    cbn [snd].
  - apply generateRandomGeoData_Normal in Hgen
      as (vehicle & currentPos & newLat & newLon & _ & _ & -> & -> & -> & _).
    intros [[_ <-]|[_ ?]]%lookup_insert_Some; [|by eapply Hin].
    unfold Simulation.within_BOUNDS. cbn [Position.lat Position.lon].
    destruct (clamp_bounds (GeoSimulator.minLat GeoSimulator.BOUNDS)
                (GeoSimulator.maxLat GeoSimulator.BOUNDS)
                (Position.lat currentPos + (Tick.random_lat t - 0.5) * 0.3))
      as [? ?]; [simpl; lra|].
    destruct (clamp_bounds (GeoSimulator.minLon GeoSimulator.BOUNDS)
                (GeoSimulator.maxLon GeoSimulator.BOUNDS)
                (Position.lon currentPos + (Tick.random_lon t - 0.5) * 0.3))
      as [? ?]; [simpl; lra|].
    done.
  - apply generateRandomGeoData_Throw in Hgen as [-> _]. apply Hin.
Qed.

(** After any number of ticks every position stored for the pool of
    the module lies inside [BOUNDS]. *)
Theorem stored_positions_stay_within_BOUNDS (ts : list Tick.t) (key : string) (p : Position.t) :
  GeoSimulator.currentPositions
    (Simulation.run GeoSimulator.IDENTIFIER_POOL ts
       (GeoSimulator.init GeoSimulator.IDENTIFIER_POOL, Resolvers.init)).2.1
    !! key = Some p →
  Simulation.within_BOUNDS p.
Proof.
  revert key p.
  apply (run_invariant
           (λ st, ∀ key p, GeoSimulator.currentPositions st.1 !! key = Some p →
                           Simulation.within_BOUNDS p)).
  - intros t [sim store] Hin key p. cbn [fst] in Hin.
    destruct (tick_cases GeoSimulator.IDENTIFIER_POOL t sim store)
      as [(g & sim' & Hgen & ->)|(e & sim' & Hgen & ->)]; cbn [fst snd];
      pose proof (generateRandomGeoData_within GeoSimulator.IDENTIFIER_POOL t sim Hin key p)
        as Hw; rewrite Hgen in Hw; apply Hw.
  - intros key p (v & Hv & _ & ->)%init_positions.
    by apply (proj1 (Forall_forall _ _) IDENTIFIER_POOL_within_BOUNDS).
Qed.

(** With the pool of the module and random numbers in [0, 1), no tick
    fails: after [n] ticks the store holds [n] events, the counter is
    [n], and each event names a member of the pool by id and name. *)
Theorem ticks_never_fail_with_the_pool (ts : list Tick.t) :
  Forall Tick.valid ts →
  ∃ sim store,
    Simulation.run GeoSimulator.IDENTIFIER_POOL ts
      (GeoSimulator.init GeoSimulator.IDENTIFIER_POOL, Resolvers.init)
    = (JS.Normal (), (sim, store))
    ∧ length (Resolvers.read store Resolvers.geoDataStore) = length ts
    ∧ GeoSimulator.counter sim = Z.of_nat (length ts)
    ∧ (∀ g, g ∈ Resolvers.read store Resolvers.geoDataStore →
            ∃ v, v ∈ GeoSimulator.IDENTIFIER_POOL
                 ∧ GeoData.identifier g = Vehicle.id v
                 ∧ GeoData.name g = Vehicle.name v).
Proof.
  assert (∀ ts sim0 store0,
    Forall Tick.valid ts →
    GeoSimulator.positions_defined GeoSimulator.IDENTIFIER_POOL sim0 →
    is_Some (Resolvers.heap store0 !! Resolvers.geoDataStore) →
    ∃ sim store new,
      Simulation.run GeoSimulator.IDENTIFIER_POOL ts (sim0, store0)
      = (JS.Normal (), (sim, store))
      ∧ Resolvers.read store Resolvers.geoDataStore
        = Resolvers.read store0 Resolvers.geoDataStore ++ new
      ∧ length new = length ts
      ∧ GeoSimulator.counter sim = (GeoSimulator.counter sim0 + Z.of_nat (length ts))%Z
      ∧ (∀ g, g ∈ new →
              ∃ v, v ∈ GeoSimulator.IDENTIFIER_POOL
                   ∧ GeoData.identifier g = Vehicle.id v
                   ∧ GeoData.name g = Vehicle.name v)) as Hgen.
  { clear ts. induction ts as [|t ts IH]; intros sim0 store0 Hvalid Hdef Hstore.
    - exists sim0, store0, []. simpl. rewrite app_nil_r.
      split_and!; try done; [lia|]. intros g Hg. by apply elem_of_nil in Hg.
    - apply Forall_cons in Hvalid as [Ht Hts].
      destruct (generateRandomGeoData_total GeoSimulator.IDENTIFIER_POOL t sim0)
        as (g & sim1 & Hg & Hdef1); [done|done|done|].
      destruct (read_addGeoData g store0 Hstore) as [Hr Hs1].
      destruct (IH sim1 (Resolvers.addGeoData g store0) Hts Hdef1 Hs1)
        as (sim & store & new & Hrun & Hread & Hlen & Hcount & Hnew).
      exists sim, store, (g :: new). cbn [Simulation.run].
      unfold GeoSimulator.tick. cbn [fst snd]. rewrite Hg, Hrun.
      pose proof Hg as Hg'.
      apply generateRandomGeoData_Normal in Hg'
        as (v & _ & _ & _ & Hpick & _ & _ & _ & _ & Hc & Hid & Hname & _).
      split_and!; [done| | | |].
      + rewrite Hread, Hr, <- app_assoc. done.
      + simpl. by rewrite Hlen.
      + rewrite Hcount, Hc. simpl length. lia.
      + intros g' [->|Hin]%elem_of_cons; [|by apply Hnew].
        exists v. split; [|done].
        unfold GeoSimulator.picked, JS.index in Hpick.
        destruct (_ <? 0)%Z; [done|]. by eapply list_elem_of_lookup_2. }
  intros Hvalid.
  destruct (Hgen ts (GeoSimulator.init GeoSimulator.IDENTIFIER_POOL) Resolvers.init)
    as (sim & store & new & Hrun & Hread & Hlen & Hcount & Hnew);
    [done|apply positions_defined_init|by eexists|].
  exists sim, store. split_and!; [done| | |].
  - by rewrite Hread.
  - rewrite Hcount. simpl. lia.
  - intros g Hg. rewrite Hread in Hg. by apply Hnew.
Qed.

(** ** Map.tsx: what the client has reconstructed from the events sent *)

Lemma run_snoc es e st :
  Client.run (es ++ [e]) st = Client.step e (Client.run es st).
Proof. unfold Client.run. by rewrite foldl_app. Qed.

Lemma data_snoc es e :
  Received.data (es ++ [e])
  = Received.data es ++ match e with Client.NewGeoData d => [d] | _ => [] end.
Proof. unfold Received.data. rewrite omap_app. by destruct e. Qed.

Lemma of_entity_snoc identifier es e :
  Received.of_entity identifier (es ++ [e])
  = Received.of_entity identifier es
    ++ match e with
       | Client.NewGeoData d =>
           if decide (GeoData.identifier d = identifier) then [d] else []
       | _ => []
       end.
Proof.
  unfold Received.of_entity. rewrite data_snoc, filter_app.
  by destruct e.
Qed.

(** The effect of an event on a mounted map, field by field. *)
Lemma step_NewGeoData d st ps ls :
  MapView.pointsSourceRef (Client.map st) = Some ps →
  MapView.linesSourceRef (Client.map st) = Some ls →
  let trail := default [] (MapView.geoDataByIdentifier (Client.map st)
                             !! GeoData.identifier d) ++ [d] in
  let st' := Client.step (Client.NewGeoData d) st in
  Client.app st' = App.handleNewGeoData d (Client.app st)
  ∧ MapView.geoDataByIdentifier (Client.map st')
    = <[GeoData.identifier d := trail]> (MapView.geoDataByIdentifier (Client.map st))
  ∧ MapView.pointsSourceRef (Client.map st')
    = Some (MapView.addPoint
              (MapView.Point.mk (MapView.fromLonLat (GeoData.lon d) (GeoData.lat d))
                 (GeoData.name d) (GeoData.identifier d) (GeoData.lat d) (GeoData.lon d)
                 (GeoData.timestamp d) true (length trail) (GeoData.id d) None)
              (MapView.clearLatest (GeoData.identifier d) ps))
  ∧ MapView.linesSourceRef (Client.map st')
    = Some (if bool_decide (2 ≤ length trail) then
              match MapView.getFeatureById ("line-" +:+ GeoData.identifier d) ls with
              | Some _ =>
                (λ f, if bool_decide (MapView.Line.id f = "line-" +:+ GeoData.identifier d)
                      then MapView.Line.setCoordinates
                             ((λ x, MapView.fromLonLat (GeoData.lon x) (GeoData.lat x))
                                <$> trail) f
                      else f) <$> ls
              | None =>
                MapView.addLine
                  (MapView.Line.mk
                     ((λ x, MapView.fromLonLat (GeoData.lon x) (GeoData.lat x)) <$> trail)
                     (GeoData.identifier d) ("line-" +:+ GeoData.identifier d) None) ls
              end
            else ls).
Proof.
  intros Hps Hls trail st'. subst st' trail.
  cbn [Client.step]. unfold MapView.dataEffect. rewrite Hps, Hls. done.
Qed.

Lemma filterEffect_trails F st :
  MapView.geoDataByIdentifier (MapView.filterEffect F st)
  = MapView.geoDataByIdentifier st.
Proof.
  unfold MapView.filterEffect.
  by destruct (MapView.pointsSourceRef st), (MapView.linesSourceRef st).
Qed.

Lemma step_other_trails e st :
  (∀ d, e ≠ Client.NewGeoData d) →
  MapView.geoDataByIdentifier (Client.map (Client.step e st))
  = MapView.geoDataByIdentifier (Client.map st).
Proof.
  intros Hne. destruct e; cbn [Client.step Client.onFilterChange Client.map];
    auto using filterEffect_trails.
  - by destruct (Hne data).
  - apply focusEffect_frame.
Qed.

Lemma trail_lookup (es : list Client.Event) (identifier : string) :
  MapView.geoDataByIdentifier (Client.map (Client.run es Client.init)) !! identifier
  = match Received.of_entity identifier es with
    | [] => None
    | trail => Some trail
    end.
Proof.
  induction es as [|e es IH] using rev_ind; [done|].
  rewrite run_snoc, of_entity_snoc.
  destruct (mounted_run es Client.init mounted_init) as [[ps Hps] [ls Hls]].
  destruct e as [d| | | | |];
    try (rewrite step_other_trails, app_nil_r by done; exact IH).
  destruct (step_NewGeoData d _ ps ls Hps Hls) as (_ & -> & _).
  case_decide as Hid.
  - subst identifier. rewrite lookup_insert_eq, IH.
    destruct (Received.of_entity _ es); done.
  - rewrite lookup_insert_ne, app_nil_r by done. exact IH.
Qed.

Lemma trail_default (es : list Client.Event) (identifier : string) :
  default [] (MapView.geoDataByIdentifier (Client.map (Client.run es Client.init))
                !! identifier)
  = Received.of_entity identifier es.
Proof. rewrite trail_lookup. by destruct (Received.of_entity identifier es). Qed.

(** The trail kept for an entity is the sequence of the events sent for
    it, in the order of arrival; an entity without events has no
    entry. *)
Theorem trail_is_the_events_of_the_entity (es : list Client.Event) (identifier : string) :
  MapView.geoDataByIdentifier (Client.map (Client.run es Client.init)) !! identifier
  = match Received.of_entity identifier es with
    | [] => None
    | trail => Some trail
    end.
Proof. apply trail_lookup. Qed.

(** ** Map.tsx: the points source as a function of the events sent *)

Lemma clearLatest_ids identifier src :
  MapView.Point.id <$> MapView.clearLatest identifier src = MapView.Point.id <$> src.
Proof.
  unfold MapView.clearLatest. rewrite <- list_fmap_compose.
  apply list_fmap_ext. intros i f _. simpl. by destruct (_ && _).
Qed.

Lemma clearLatest_length identifier src :
  length (MapView.clearLatest identifier src) = length src.
Proof. unfold MapView.clearLatest. by rewrite length_fmap. Qed.

(** An event other than incoming data leaves the points as they are,
    their style apart. *)
Lemma step_other_points e st :
  (∀ d, e ≠ Client.NewGeoData d) →
  MapView.pointData <$> MapView.points (Client.map (Client.step e st))
  = MapView.pointData <$> MapView.points (Client.map st).
Proof.
  intros Hne.
  assert (∀ F, MapView.pointData <$> MapView.points (MapView.filterEffect F (Client.map st))
               = MapView.pointData <$> MapView.points (Client.map st)) as Hfilter.
  { intros F. unfold MapView.filterEffect, MapView.points.
    destruct (MapView.pointsSourceRef (Client.map st)) as [ps|] eqn:Hps;
      destruct (MapView.linesSourceRef (Client.map st)) as [ls|] eqn:Hls;
      simpl; rewrite ?Hps; try done.
    rewrite <- list_fmap_compose. by apply list_fmap_ext. }
  destruct e; cbn [Client.step Client.onFilterChange Client.map]; auto.
  - by destruct (Hne data).
  - unfold MapView.points. by rewrite (proj1 (focusEffect_frame _ _)).
Qed.

Lemma pointData_lookup (src src' : list MapView.Point.t) k f' :
  MapView.pointData <$> src' = MapView.pointData <$> src →
  src' !! k = Some f' →
  ∃ f, src !! k = Some f ∧ MapView.pointData f' = MapView.pointData f.
Proof.
  intros Heq Hk.
  assert ((MapView.pointData <$> src) !! k = Some (MapView.pointData f')) as Hk'.
  { rewrite <- Heq, list_lookup_fmap, Hk. done. }
  apply list_lookup_fmap_Some in Hk' as (f & ? & ?). by exists f.
Qed.

(** The invariant behind the reconstruction: point [k] of the source is
    built from event [k]. *)
Lemma points_follow_events (es : list Client.Event) :
  NoDup (GeoData.id <$> Received.data es) →
  length (MapView.points (Client.map (Client.run es Client.init)))
  = length (Received.data es)
  ∧ ∀ k f d,
      MapView.points (Client.map (Client.run es Client.init)) !! k = Some f →
      Received.data es !! k = Some d →
      MapView.pointData f
      = MapView.Point.mk (MapView.fromLonLat (GeoData.lon d) (GeoData.lat d))
          (GeoData.name d) (GeoData.identifier d) (GeoData.lat d) (GeoData.lon d)
          (GeoData.timestamp d) (MapView.Point.isLatest f)
          (length (filter (λ x, GeoData.identifier x = GeoData.identifier d)
                     (take (S k) (Received.data es))))
          (GeoData.id d) None
      ∧ (MapView.Point.isLatest f = true
         ↔ ∀ j d', k < j → Received.data es !! j = Some d' →
                   GeoData.identifier d' ≠ GeoData.identifier d).
Proof.
  induction es as [|e es IH] using rev_ind.
  { intros _. split; [done|]. intros k f d Hf. by destruct k. }
  rewrite run_snoc, data_snoc. intros Hnd.
  destruct (mounted_run es Client.init mounted_init) as [[ps Hps] [ls Hls]].
  set (st := Client.run es Client.init) in *.
  assert (MapView.points (Client.map st) = ps) as Hpoints.
  { unfold MapView.points. by rewrite Hps. }
  assert ((∃ d, e = Client.NewGeoData d) ∨ (∀ d, e ≠ Client.NewGeoData d))
    as [[d ->]|Hne] by (destruct e; eauto).
  - (* incoming data *)
    rewrite fmap_app in Hnd. apply NoDup_app in Hnd as (Hnd & Hfresh & _).
    destruct (IH Hnd) as [Hlen Hk]. rewrite Hpoints in Hlen, Hk.
    assert (MapView.Point.id <$> ps = GeoData.id <$> Received.data es) as Hids.
    { apply list_eq_same_length with (length ps); [by rewrite length_fmap|
        by rewrite length_fmap|].
      intros i x y _ Hx Hy.
      apply list_lookup_fmap_Some in Hx as (f & -> & Hf).
      apply list_lookup_fmap_Some in Hy as (d' & -> & Hd').
      destruct (Hk i f d' Hf Hd') as [Hdata _].
      by apply (f_equal MapView.Point.id) in Hdata. }
    destruct (step_NewGeoData d st ps ls Hps Hls) as (_ & _ & Hps' & _).
    unfold MapView.points at 1 2. rewrite Hps'. simpl default.
    unfold MapView.addPoint. rewrite clearLatest_ids, Hids.
    rewrite bool_decide_eq_false_2; last first.
    { intros Hin. apply (Hfresh _ Hin). simpl. apply list_elem_of_here. }
    cbn [MapView.Point.id]. split.
    { rewrite !length_app, clearLatest_length. simpl. lia. }
    intros k f' d' Hf' Hd'.
    apply lookup_snoc_Some in Hf' as [[Hlt Hf']|[Hk' <-]].
    + (* an older point *)
      rewrite clearLatest_length in Hlt.
      assert (Received.data es !! k = Some d') as Hd.
      { rewrite lookup_app_l in Hd' by lia. done. }
      unfold MapView.clearLatest in Hf'.
      apply list_lookup_fmap_Some in Hf' as (f & -> & Hf).
      destruct (Hk k f d' Hf Hd) as [Hdata Hlatest].
      assert (MapView.Point.identifier f = GeoData.identifier d') as Hidf.
      { by apply (f_equal MapView.Point.identifier) in Hdata. }
      rewrite take_app_le by lia. split.
      * destruct (bool_decide _ && _) eqn:Hb; [|done].
        change (MapView.pointData (MapView.Point.set_isLatest false f))
          with (MapView.Point.set_isLatest false (MapView.pointData f)).
        rewrite Hdata. done.
      * case_bool_decide as Hsame; simpl.
        -- destruct (MapView.Point.isLatest f) eqn:Hl; simpl.
           ++ split; [done|]. intros Hall.
              destruct (Hall (length (Received.data es)) d); [lia| |congruence].
              by rewrite lookup_app_r, Nat.sub_diag by lia.
           ++ rewrite Hl. split; [done|]. intros Hall. apply Hlatest.
              intros j d'' Hj Hd''. apply (Hall j d'' Hj).
              rewrite lookup_app_l; [done|]. by eapply lookup_lt_Some.
        -- rewrite Hlatest. split.
           ++ intros Hall j d'' Hj [[Hjl Hd'']|[-> [= <-]]]%lookup_snoc_Some;
                [by apply (Hall j)|congruence].
           ++ intros Hall j d'' Hj Hd''. apply (Hall j d'' Hj).
              rewrite lookup_app_l; [done|]. by eapply lookup_lt_Some.
    + (* the new point *)
      rewrite clearLatest_length in Hk'. subst k.
      rewrite Hlen, lookup_app_r, Nat.sub_diag in Hd' by lia.
      injection Hd' as <-. cbn [MapView.Point.isLatest]. split.
      * unfold MapView.pointData, MapView.Point.setStyle. simpl. f_equal.
        rewrite take_ge by (rewrite length_app; simpl; lia).
        rewrite filter_app, length_app.
        fold st. unfold Received.of_entity, st.
        pose proof (trail_default es (GeoData.identifier d)) as Htrail.
        unfold Received.of_entity in Htrail. rewrite length_app, Htrail.
        f_equal. rewrite filter_cons, filter_nil. by case_decide.
      * split; [|done]. intros _ j d'' Hj Hd''.
        apply lookup_lt_Some in Hd''. rewrite length_app in Hd''. simpl in Hd''. lia.
  - (* any other event *)
    assert (Received.data es ++ match e with
                                 | Client.NewGeoData d => [d]
                                 | _ => []
                                 end = Received.data es) as Hsame.
    { destruct e; try apply app_nil_r. by destruct (Hne data). }
    rewrite Hsame in *.
    destruct (IH Hnd) as [Hlen Hk].
    pose proof (step_other_points e st Hne) as Hdata. split.
    { apply (f_equal length) in Hdata. rewrite !length_fmap in Hdata. lia. }
    intros k f' d Hf' Hd.
    destruct (pointData_lookup _ _ k f' Hdata Hf') as (f & Hf & Heq).
    destruct (Hk k f d Hf Hd) as [Hfd Hl].
    assert (MapView.Point.isLatest f' = MapView.Point.isLatest f) as Hlat.
    { by apply (f_equal MapView.Point.isLatest) in Heq. }
    rewrite Heq, Hlat. done.
Qed.

(** With distinct event ids, the points source holds exactly one point
    per event received, found by its id: the point with the id of an
    event has the identifier, the name, the coordinates and the time
    stamp of that event; its index is the rank of the event among the
    events of its entity; and it carries the latest flag exactly when no
    later event is of the same entity. *)
Theorem points_are_rebuilt_from_the_events (es : list Client.Event) :
  NoDup (GeoData.id <$> Received.data es) →
  let src := MapView.points (Client.map (Client.run es Client.init)) in
  length src = length (Received.data es)
  ∧ NoDup (MapView.Point.id <$> src)
  ∧ (∀ f, f ∈ src → ∃ d, d ∈ Received.data es ∧ MapView.Point.id f = GeoData.id d)
  ∧ (∀ k d,
       Received.data es !! k = Some d →
       ∃ f, f ∈ src
            ∧ (∀ g, g ∈ src → MapView.Point.id g = GeoData.id d → g = f)
            ∧ MapView.pointData f
              = MapView.Point.mk (MapView.fromLonLat (GeoData.lon d) (GeoData.lat d))
                  (GeoData.name d) (GeoData.identifier d) (GeoData.lat d) (GeoData.lon d)
                  (GeoData.timestamp d) (MapView.Point.isLatest f)
                  (length (filter (λ x, GeoData.identifier x = GeoData.identifier d)
                             (take (S k) (Received.data es))))
                  (GeoData.id d) None
            ∧ (MapView.Point.isLatest f = true
               ↔ ∀ j d', k < j → Received.data es !! j = Some d' →
                         GeoData.identifier d' ≠ GeoData.identifier d)).
Proof.
  intros Hnd src. destruct (points_follow_events es Hnd) as [Hlen Hpoints].
  fold src in Hlen, Hpoints.
  assert (MapView.Point.id <$> src = GeoData.id <$> Received.data es) as Hids.
  { apply list_eq_same_length with (length src);
      [by rewrite length_fmap|by rewrite length_fmap, Hlen|].
    intros i x y _ Hx Hy.
    apply list_lookup_fmap_Some in Hx as (f & -> & Hf).
    apply list_lookup_fmap_Some in Hy as (d & -> & Hd).
    destruct (Hpoints i f d Hf Hd) as [Hdata _].
    by apply (f_equal MapView.Point.id) in Hdata. }
  split_and!.
  - done.
  - by rewrite Hids.
  - intros f Hf.
    assert (MapView.Point.id f ∈ GeoData.id <$> Received.data es) as Hin.
    { rewrite <- Hids. by apply list_elem_of_fmap_2. }
    apply list_elem_of_fmap in Hin as (d & ? & ?). eauto.
  - intros k d Hd.
    destruct (lookup_lt_is_Some_2 src k) as [f Hf].
    { rewrite Hlen. by eapply lookup_lt_Some. }
    destruct (Hpoints k f d Hf Hd) as [Hdata Hflag].
    exists f. split_and!; [by eapply list_elem_of_lookup_2| |done|done].
    intros g [j Hg]%list_elem_of_lookup Hgid.
    assert (j = k) as ->; [|congruence].
    apply (NoDup_lookup (MapView.Point.id <$> src) j k (MapView.Point.id g));
      [by rewrite Hids| |].
    + rewrite list_lookup_fmap, Hg. done.
    + rewrite list_lookup_fmap, Hf. simpl. rewrite Hgid.
      apply (f_equal MapView.Point.id) in Hdata. simpl in Hdata. by rewrite Hdata.
Qed.

(** ** Map.tsx: the route lines *)

Lemma getFeatureById_Some fid src g :
  MapView.getFeatureById fid src = Some g → g ∈ src ∧ MapView.Line.id g = fid.
Proof.
  unfold MapView.getFeatureById.
  destruct (list_find _ src) as [[i f]|] eqn:Hfind; [|done].
  simpl. intros [= <-]. apply list_find_Some in Hfind as (Hi & Hid & _).
  split; [by eapply list_elem_of_lookup_2|done].
Qed.

Lemma getFeatureById_None fid src :
  MapView.getFeatureById fid src = None →
  ∀ f, f ∈ src → MapView.Line.id f ≠ fid.
Proof.
  unfold MapView.getFeatureById.
  destruct (list_find _ src) as [[i f]|] eqn:Hfind; [done|].
  intros _. apply list_find_None in Hfind.
  intros f Hf. by apply (proj1 (Forall_forall _ _) Hfind).
Qed.

Lemma step_other_lines e st :
  (∀ d, e ≠ Client.NewGeoData d) →
  MapView.lineData <$> MapView.lines (Client.map (Client.step e st))
  = MapView.lineData <$> MapView.lines (Client.map st).
Proof.
  intros Hne.
  assert (∀ F, MapView.lineData <$> MapView.lines (MapView.filterEffect F (Client.map st))
               = MapView.lineData <$> MapView.lines (Client.map st)) as Hfilter.
  { intros F. unfold MapView.filterEffect, MapView.lines.
    destruct (MapView.pointsSourceRef (Client.map st)) as [ps|] eqn:Hps;
      destruct (MapView.linesSourceRef (Client.map st)) as [ls|] eqn:Hls;
      simpl; rewrite ?Hls; try done.
    rewrite <- list_fmap_compose. by apply list_fmap_ext. }
  destruct e; cbn [Client.step Client.onFilterChange Client.map]; auto.
  - by destruct (Hne data).
  - unfold MapView.lines.
    by destruct (focusEffect_frame
                   (App.focusPoint (App.handleNotificationClick data (Client.app st)))
                   (Client.map st)) as (_ & -> & _).
Qed.

Lemma lines_follow_trails (es : list Client.Event) :
  let ls := MapView.lines (Client.map (Client.run es Client.init)) in
  NoDup (MapView.Line.id <$> ls)
  ∧ (∀ f, f ∈ ls →
       MapView.Line.id f = "line-" +:+ MapView.Line.identifier f
       ∧ 2 ≤ length (Received.of_entity (MapView.Line.identifier f) es)
       ∧ MapView.Line.coordinates f
         = Received.coords (Received.of_entity (MapView.Line.identifier f) es))
  ∧ (∀ identifier, 2 ≤ length (Received.of_entity identifier es) →
       ∃ f, f ∈ ls ∧ MapView.Line.identifier f = identifier).
Proof.
  induction es as [|e es IH] using rev_ind.
  { simpl. split_and!; [apply NoDup_nil_2| |].
    - intros f Hf. by apply elem_of_nil in Hf.
    - intros identifier Hlen. simpl in Hlen. lia. }
  rewrite run_snoc.
  destruct (mounted_run es Client.init mounted_init) as [[ps Hps] [ls Hls]].
  set (st := Client.run es Client.init) in *.
  assert (MapView.lines (Client.map st) = ls) as Hlines.
  { unfold MapView.lines. by rewrite Hls. }
  simpl in IH. rewrite Hlines in IH. destruct IH as (Hnd & Hb & Hc).
  assert ((∃ d, e = Client.NewGeoData d) ∨ (∀ d, e ≠ Client.NewGeoData d))
    as [[d ->]|Hne] by (destruct e; eauto).
  - (* incoming data *)
    destruct (step_NewGeoData d st ps ls Hps Hls) as (_ & _ & _ & Hls').
    pose proof (trail_default es (GeoData.identifier d)) as Htrail.
    fold st in Htrail. rewrite Htrail in Hls'. clear Htrail.
    cbn zeta. unfold MapView.lines at 1 2 3. rewrite Hls'. simpl default.
    set (e0 := GeoData.identifier d) in *.
    set (lid := "line-" +:+ e0) in *.
    assert (∀ identifier,
              Received.of_entity identifier (es ++ [Client.NewGeoData d])
              = if decide (e0 = identifier)
                then Received.of_entity e0 es ++ [d]
                else Received.of_entity identifier es) as Hof.
    { intros identifier. rewrite of_entity_snoc. fold e0.
      destruct (decide (e0 = identifier)) as [<-|?]; [done|by rewrite app_nil_r]. }
    assert (∀ f, f ∈ ls → MapView.Line.id f = lid → MapView.Line.identifier f = e0)
      as Hlid.
    { intros f Hf Hid. destruct (Hb f Hf) as (Hidf & _). rewrite Hidf in Hid.
      by apply (inj (String.append "line-")) in Hid. }
    case_bool_decide as Hlen.
    + destruct (MapView.getFeatureById lid ls) as [g|] eqn:Hget.
      * (* the line exists: its coordinates are replaced *)
        apply getFeatureById_Some in Hget as [Hg Hgid].
        split_and!.
        -- rewrite <- list_fmap_compose.
           erewrite list_fmap_ext; [exact Hnd|]. intros i f _. simpl.
           by case_bool_decide.
        -- intros f' (f & -> & Hf)%list_elem_of_fmap. rewrite Hof.
           destruct (Hb f Hf) as (Hidf & Hlenf & Hcoords).
           case_bool_decide as Hfid; cbn [MapView.Line.setCoordinates
             MapView.Line.id MapView.Line.identifier MapView.Line.coordinates].
           ++ rewrite (Hlid f Hf Hfid). rewrite decide_True by done.
              split_and!; [by rewrite <- (Hlid f Hf Hfid)|done|done].
           ++ rewrite decide_False; [done|]. intros Heq. apply Hfid.
              rewrite Hidf, <- Heq. done.
        -- intros identifier. rewrite Hof. case_decide as Hid.
           ++ subst identifier. intros _. eexists. split.
              ** apply list_elem_of_fmap. exists g. split; [done|exact Hg].
              ** rewrite bool_decide_eq_true_2 by done. simpl. by apply Hlid.
           ++ intros Hl. destruct (Hc identifier Hl) as (f & Hf & Hfid).
              eexists. split; [apply list_elem_of_fmap; exists f; split; [done|exact Hf]|].
              by case_bool_decide.
      * (* no line yet: one is added *)
        pose proof (getFeatureById_None _ _ Hget) as Hnone.
        unfold MapView.addLine. cbn [MapView.Line.id].
        rewrite bool_decide_eq_false_2; last first.
        { intros (f & Hfid & Hf)%list_elem_of_fmap. by apply (Hnone f Hf). }
        split_and!.
        -- rewrite fmap_app. apply NoDup_app. split_and!; [done| |apply NoDup_singleton].
           intros x Hx Hx'. apply list_elem_of_singleton in Hx' as ->.
           apply list_elem_of_fmap in Hx as (f & Hfid & Hf). by apply (Hnone f Hf).
        -- intros f' [Hf| ->%list_elem_of_singleton]%elem_of_app; rewrite Hof.
           ++ destruct (Hb f' Hf) as (Hidf & Hlenf & Hcoords).
              rewrite decide_False; [done|]. intros Heq. apply (Hnone f' Hf).
              rewrite Hidf, <- Heq. done.
           ++ cbn [MapView.Line.id MapView.Line.identifier MapView.Line.coordinates].
              rewrite decide_True by done. done.
        -- intros identifier. rewrite Hof. case_decide as Hid.
           ++ subst identifier. intros _. eexists. split;
                [apply elem_of_app; right; apply list_elem_of_singleton; done|done].
           ++ intros Hl. destruct (Hc identifier Hl) as (f & Hf & Hfid).
              exists f. split; [apply elem_of_app; by left|done].
    + (* fewer than two events of the entity: nothing is drawn *)
      rewrite length_app in Hlen. simpl in Hlen.
      split_and!; [done| |].
      * intros f Hf. rewrite Hof. destruct (Hb f Hf) as (Hidf & Hlenf & Hcoords).
        rewrite decide_False; [done|]. intros Heq. rewrite <- Heq in Hlenf. lia.
      * intros identifier. rewrite Hof. case_decide as Hid.
        -- rewrite length_app. simpl. lia.
        -- apply Hc.
  - (* any other event *)
    pose proof (step_other_lines e st Hne) as Hdata. rewrite Hlines in Hdata.
    cbn zeta.
    assert (∀ identifier, Received.of_entity identifier (es ++ [e])
                          = Received.of_entity identifier es) as Hof.
    { intros identifier. rewrite of_entity_snoc.
      destruct e; try apply app_nil_r. by destruct (Hne data). }
    set (ls' := MapView.lines (Client.map (Client.step e st))) in *.
    assert (∀ f', f' ∈ ls' → ∃ f, f ∈ ls ∧ MapView.lineData f' = MapView.lineData f) as Hback.
    { intros f' Hf'.
      assert (MapView.lineData f' ∈ MapView.lineData <$> ls') as Hin.
      { by apply list_elem_of_fmap_2. }
      rewrite Hdata in Hin. apply list_elem_of_fmap in Hin as (f & ? & ?). eauto. }
    assert (∀ f, f ∈ ls → ∃ f', f' ∈ ls' ∧ MapView.lineData f' = MapView.lineData f) as Hforth.
    { intros f Hf.
      assert (MapView.lineData f ∈ MapView.lineData <$> ls) as Hin.
      { by apply list_elem_of_fmap_2. }
      rewrite <- Hdata in Hin. apply list_elem_of_fmap in Hin as (f' & ? & ?). eauto. }
    split_and!.
    + assert (MapView.Line.id <$> ls' = MapView.Line.id <$> ls) as ->; [|done].
      apply (f_equal (fmap MapView.Line.id)) in Hdata.
      rewrite <- !list_fmap_compose in Hdata. exact Hdata.
    + intros f' Hf'. rewrite Hof. destruct (Hback f' Hf') as (f & Hf & Heq).
      destruct (Hb f Hf) as (Hidf & Hlenf & Hcoords).
      assert (MapView.Line.id f' = MapView.Line.id f) as ->
        by apply (f_equal MapView.Line.id Heq).
      assert (MapView.Line.identifier f' = MapView.Line.identifier f) as ->
        by apply (f_equal MapView.Line.identifier Heq).
      assert (MapView.Line.coordinates f' = MapView.Line.coordinates f) as ->
        by apply (f_equal MapView.Line.coordinates Heq).
      done.
    + intros identifier. rewrite Hof. intros Hl.
      destruct (Hc identifier Hl) as (f & Hf & Hfid).
      destruct (Hforth f Hf) as (f' & Hf' & Heq). exists f'. split; [done|].
      rewrite <- Hfid. apply (f_equal MapView.Line.identifier Heq).
Qed.

(** An entity with at least two events has a route line, named after it,
    through the coordinates of all its events in order; an entity with
    fewer has none; and no entity has two lines. *)
Theorem route_line_follows_the_trail (es : list Client.Event) (identifier : string) :
  let ls := MapView.lines (Client.map (Client.run es Client.init)) in
  let trail := Received.of_entity identifier es in
  (2 ≤ length trail →
     ∃ f, f ∈ ls ∧ MapView.Line.identifier f = identifier
          ∧ MapView.Line.id f = "line-" +:+ identifier
          ∧ MapView.Line.coordinates f = Received.coords trail)
  ∧ (length trail < 2 → ∀ f, f ∈ ls → MapView.Line.identifier f ≠ identifier)
  ∧ (∀ i j f g, ls !! i = Some f → ls !! j = Some g →
                MapView.Line.identifier f = MapView.Line.identifier g → i = j).
Proof.
  intros ls trail. destruct (lines_follow_trails es) as (Hnd & Hb & Hc).
  fold ls in Hnd, Hb, Hc. split_and!.
  - intros Hlen. destruct (Hc identifier Hlen) as (f & Hf & Hid).
    destruct (Hb f Hf) as (Hfid & _ & Hcoords). rewrite Hid in *. eauto.
  - intros Hlen f Hf Hid. destruct (Hb f Hf) as (_ & Hlenf & _).
    rewrite Hid in Hlenf. fold trail in Hlenf. lia.
  - intros i j f g Hf Hg Hid.
    destruct (Hb f (list_elem_of_lookup_2 _ _ _ Hf)) as (Hfid & _).
    destruct (Hb g (list_elem_of_lookup_2 _ _ _ Hg)) as (Hgid & _).
    eapply NoDup_lookup; [exact Hnd| |].
    + rewrite list_lookup_fmap, Hf. done.
    + rewrite list_lookup_fmap, Hg. simpl. by rewrite Hfid, Hgid, Hid.
Qed.

(** ** App.tsx under all events of the client *)

Lemma step_app_lists e st :
  MapView.mounted (Client.map st) →
  App.recentData (Client.app (Client.step e st))
  = match e with
    | Client.NewGeoData d => JS.slice_last 50 (App.recentData (Client.app st)) ++ [d]
    | _ => App.recentData (Client.app st)
    end
  ∧ App.notifications (Client.app (Client.step e st))
    = match e with
      | Client.NewGeoData d => JS.slice_last 99 (App.notifications (Client.app st)) ++ [d]
      | Client.NotificationClick d =>
          filter (λ n, GeoData.id n ≠ GeoData.id d) (App.notifications (Client.app st))
      | Client.ClearAllNotifications => []
      | _ => App.notifications (Client.app st)
      end.
Proof.
  intros [[ps Hps] [ls Hls]]. destruct e; try done.
  destruct (step_NewGeoData data st ps ls Hps Hls) as (-> & _). done.
Qed.

Lemma recentData_run (es : list Client.Event) :
  App.recentData (Client.app (Client.run es Client.init))
  = JS.slice_last 51 (Received.data es).
Proof.
  induction es as [|e es IH] using rev_ind; [done|].
  rewrite run_snoc, data_snoc.
  destruct (step_app_lists e _ (mounted_run es Client.init mounted_init)) as [-> _].
  rewrite IH. destruct e; rewrite ?app_nil_r; try done.
  by rewrite slice_last_slice_last, slice_last_snoc by lia.
Qed.

(** Whatever else happens on the client, the side bar lists the ten
    events sent last, the newest first. *)
Theorem sidebar_lists_the_ten_newest (es : list Client.Event) :
  SidebarView.recentUpdates (App.recentData (Client.app (Client.run es Client.init)))
  = reverse (drop (length (Received.data es) - 10) (Received.data es)).
Proof.
  unfold SidebarView.recentUpdates. rewrite recentData_run.
  by rewrite slice_last_slice_last by lia.
Qed.

(** The notification list never holds more than 100 entries, and what
    it holds are events that were sent, in the order they were sent. *)
Theorem notifications_bounded_and_in_order (es : list Client.Event) :
  NotificationBell.badgeContent
    (App.notifications (Client.app (Client.run es Client.init))) ≤ 100
  ∧ App.notifications (Client.app (Client.run es Client.init))
    `sublist_of` Received.data es.
Proof.
  unfold NotificationBell.badgeContent.
  induction es as [|e es [IHlen IHsub]] using rev_ind; [split; simpl; [lia|done]|].
  rewrite run_snoc, data_snoc.
  destruct (step_app_lists e _ (mounted_run es Client.init mounted_init)) as [_ ->].
  destruct e; rewrite ?app_nil_r; try done.
  - split.
    + rewrite length_app, slice_last_length. cbn [length]. lia.
    + apply sublist_app; [|done]. etrans; [apply sublist_drop|done].
  - split.
    + etrans; [apply length_filter|done].
    + etrans; [apply sublist_filter|done].
  - split; [simpl; lia|apply sublist_nil_l].
Qed.

Lemma acknowledged_stays_out_step (x : string) e st :
  MapView.mounted (Client.map st) →
  (∀ d, e = Client.NewGeoData d → GeoData.id d ≠ x) →
  (∀ n, n ∈ App.notifications (Client.app st) → GeoData.id n ≠ x) →
  ∀ n, n ∈ App.notifications (Client.app (Client.step e st)) → GeoData.id n ≠ x.
Proof.
  intros Hm Hne Hinv n. destruct (step_app_lists e st Hm) as [_ ->].
  destruct e; auto.
  - intros [Hin| ->%list_elem_of_singleton]%elem_of_app; [|by apply Hne].
    apply Hinv. by eapply subseteq_drop.
  - intros [_ Hin]%list_elem_of_filter. by apply Hinv.
  - intros Hin. by apply elem_of_nil in Hin.
Qed.

(** A notification that was clicked does not come back: as long as no
    event with that id is sent again, no entry of the list has it,
    whatever else happens. *)
Theorem acknowledged_notification_stays_out
    (es later : list Client.Event) (data : GeoData.t) :
  (∀ d, d ∈ Received.data later → GeoData.id d ≠ GeoData.id data) →
  ∀ n, n ∈ App.notifications
             (Client.app (Client.run (es ++ Client.NotificationClick data :: later)
                            Client.init)) →
       GeoData.id n ≠ GeoData.id data.
Proof.
  intros Hlater.
  induction later as [|e later IH] using rev_ind.
  - rewrite run_snoc.
    destruct (step_app_lists (Client.NotificationClick data) _
                (mounted_run es Client.init mounted_init)) as [_ ->].
    intros n [? _]%list_elem_of_filter. done.
  - replace (es ++ Client.NotificationClick data :: later ++ [e])
      with ((es ++ Client.NotificationClick data :: later) ++ [e])
      by (by rewrite <- app_assoc).
    rewrite run_snoc. apply acknowledged_stays_out_step.
    + apply mounted_run, mounted_init.
    + intros d ->. apply Hlater. rewrite data_snoc.
      apply elem_of_app. right. apply list_elem_of_here.
    + apply IH. intros d Hd. apply Hlater. rewrite data_snoc.
      apply elem_of_app. by left.
Qed.

(** Right after an event has come in it is on top of both lists. *)
Theorem newest_event_is_on_top (es : list Client.Event) (d : GeoData.t) :
  head (SidebarView.recentUpdates
          (App.recentData (Client.app (Client.run (es ++ [Client.NewGeoData d]) Client.init))))
  = Some d
  ∧ head (NotificationBell.listed
            (App.notifications
               (Client.app (Client.run (es ++ [Client.NewGeoData d]) Client.init))))
    = Some d.
Proof.
  rewrite run_snoc.
  destruct (step_app_lists (Client.NewGeoData d) _
              (mounted_run es Client.init mounted_init)) as [-> ->].
  unfold SidebarView.recentUpdates, NotificationBell.listed.
  rewrite <- slice_last_snoc, slice_last_slice_last, slice_last_snoc by lia.
  by rewrite !reverse_snoc.
Qed.

(** ** Sidebar.tsx and Map.tsx: the filter controls *)

Lemma checked_spec (F : gset string) (vehicle : string) :
  Sidebar.checked F vehicle = true ↔ F = ∅ ∨ vehicle ∈ F.
Proof.
  unfold Sidebar.checked. rewrite orb_true_iff, !bool_decide_eq_true.
  by rewrite size_empty_iff, leibniz_equiv_iff.
Qed.



(** Setting the filter twice is setting it to the second set: nothing of
    the first setting remains on the map. *)
Theorem filter_change_last_wins (F G : gset string) (st : Client.State) :
  Client.onFilterChange G (Client.onFilterChange F st) = Client.onFilterChange G st.
Proof.
  unfold Client.onFilterChange. cbn [Client.app Client.map]. f_equal.
  unfold MapView.filterEffect.
  destruct (MapView.pointsSourceRef (Client.map st)) as [ps|] eqn:Hps;
    destruct (MapView.linesSourceRef (Client.map st)) as [ls|] eqn:Hls;
    cbn [MapView.pointsSourceRef MapView.linesSourceRef MapView.geoDataByIdentifier
         MapView.view]; rewrite ?Hps, ?Hls; try done.
  f_equal; f_equal; rewrite <- list_fmap_compose; by apply list_fmap_ext.
Qed.

Lemma select_all_members (vehicle : string) :
  vehicle ∈ Sidebar.handleSelectAll ↔ vehicle ∈ fst <$> Sidebar.ALL_IDENTIFIERS.
Proof. unfold Sidebar.handleSelectAll. apply elem_of_list_to_set. Qed.



Lemma size_handleSelectAll :
  size Sidebar.handleSelectAll = length Sidebar.ALL_IDENTIFIERS.
Proof. by vm_compute. Qed.

(** All checkboxes of the side bar are shown checked in exactly two
    cases: the filter set is empty, or it holds every vehicle of the side
    bar. The chips tell the two apart: the None chip is filled exactly
    for the empty set; the All chip is filled exactly for the sets with
    as many members as the side bar has vehicles, which, among the sets
    the side bar can produce (subsets of its vehicles), is the full set
    alone; so the two chips are never filled together. *)
Theorem all_boxes_checked_iff_none_or_all (F : gset string) :
  ((∀ vehicle, vehicle ∈ fst <$> Sidebar.ALL_IDENTIFIERS →
               Sidebar.checked F vehicle = true)
   ↔ F = ∅ ∨ Sidebar.handleSelectAll ⊆ F)
  ∧ (SidebarView.noneChipFilled F = true ↔ F = ∅)
  ∧ (SidebarView.allChipFilled F = true ↔ size F = length Sidebar.ALL_IDENTIFIERS)
  ∧ (F ⊆ Sidebar.handleSelectAll →
     (SidebarView.allChipFilled F = true ↔ F = Sidebar.handleSelectAll))
  ∧ ¬ (SidebarView.noneChipFilled F = true ∧ SidebarView.allChipFilled F = true).
Proof.
  assert (SidebarView.noneChipFilled F = true ↔ F = ∅) as Hnone.
  { unfold SidebarView.noneChipFilled.
    by rewrite bool_decide_eq_true, size_empty_iff, leibniz_equiv_iff. }
  assert (SidebarView.allChipFilled F = true ↔ size F = length Sidebar.ALL_IDENTIFIERS) as Hall.
  { unfold SidebarView.allChipFilled. by rewrite bool_decide_eq_true. }
  split_and!; [|exact Hnone|exact Hall| |].
  - split.
    + intros Hchecked. destruct (decide (F = ∅)) as [|Hne]; [by left|right].
      intros x Hx%select_all_members.
      apply Hchecked, checked_spec in Hx as [?|?]; done.
    + intros [->|Hsub] vehicle Hv; apply checked_spec; [by left|right].
      by apply Hsub, select_all_members.
  - intros Hsub. rewrite Hall. split.
    + intros Hsize. apply set_subseteq_size_eq; [done|].
      rewrite size_handleSelectAll, Hsize. done.
    + intros ->. apply size_handleSelectAll.
  - intros [Hn Ha]. apply Hnone in Hn. apply Hall in Ha. subst F.
    by rewrite size_empty in Ha.
Qed.

(** Every event the simulator produces is of a vehicle the side bar
    knows, under the same name, so the All chip shows it. *)
Theorem generated_vehicle_is_in_the_sidebar
    (t : Tick.t) (st st' : GeoSimulator.State) (geoData : GeoData.t) :
  GeoSimulator.generateRandomGeoData GeoSimulator.IDENTIFIER_POOL t st
  = (JS.Normal geoData, st') →
  (GeoData.identifier geoData, GeoData.name geoData) ∈ Sidebar.ALL_IDENTIFIERS
  ∧ MapView.visible Sidebar.handleSelectAll (GeoData.identifier geoData) = true
  ∧ Sidebar.checked Sidebar.handleSelectAll (GeoData.identifier geoData) = true.
Proof.
  intros Hgen.
  apply generateRandomGeoData_Normal in Hgen
    as (v & _ & _ & _ & Hpick & _ & _ & _ & _ & _ & Hid & Hname & _).
  assert (v ∈ GeoSimulator.IDENTIFIER_POOL) as Hv.
  { unfold GeoSimulator.picked, JS.index in Hpick.
    destruct (_ <? 0)%Z; [done|]. by eapply list_elem_of_lookup_2. }
  assert ((GeoData.identifier geoData, GeoData.name geoData) ∈ Sidebar.ALL_IDENTIFIERS)
    as Hin.
  { rewrite Hid, Hname.
    change Sidebar.ALL_IDENTIFIERS
      with ((λ v, (Vehicle.id v, Vehicle.name v)) <$> GeoSimulator.IDENTIFIER_POOL).
    apply list_elem_of_fmap. by exists v. }
  assert (GeoData.identifier geoData ∈ Sidebar.handleSelectAll) as Hsel.
  { apply select_all_members.
    apply list_elem_of_fmap.
    by exists (GeoData.identifier geoData, GeoData.name geoData). }
  split_and!; [done| |].
  - apply visible_spec. by right.
  - apply checked_spec. by right.
Qed.

(** ** Evaluations at concrete inputs *)

Lemma Sample_tick_valid : Tick.valid Sample.tick.
Proof. repeat split; vm_compute; congruence. Qed.

Lemma init_within_BOUNDS key p :
  GeoSimulator.currentPositions (GeoSimulator.init GeoSimulator.IDENTIFIER_POOL) !! key
  = Some p →
  Simulation.within_BOUNDS p.
Proof.
  intros (v & Hv & _ & ->)%init_positions.
  by apply (proj1 (Forall_forall _ _) IDENTIFIER_POOL_within_BOUNDS).
Qed.

Lemma tick_step_is_small_witness :
  ∃ geoData st' old new,
    GeoSimulator.generateRandomGeoData GeoSimulator.IDENTIFIER_POOL Sample.tick
      (GeoSimulator.init GeoSimulator.IDENTIFIER_POOL) = (JS.Normal geoData, st')
    ∧ GeoSimulator.currentPositions (GeoSimulator.init GeoSimulator.IDENTIFIER_POOL)
        !! GeoData.identifier geoData = Some old
    ∧ GeoSimulator.currentPositions st' !! GeoData.identifier geoData = Some new
    ∧ (- 0.150001 < Position.lat new - Position.lat old)%Q
    ∧ (Position.lat new - Position.lat old < 0.150001)%Q.
Proof.
  destruct (generateRandomGeoData_total GeoSimulator.IDENTIFIER_POOL Sample.tick
              (GeoSimulator.init GeoSimulator.IDENTIFIER_POOL))
    as (geoData & st' & Hgen & _);
    [done|apply Sample_tick_valid|apply positions_defined_init|].
  destruct (tick_step_is_small GeoSimulator.IDENTIFIER_POOL Sample.tick
              (GeoSimulator.init GeoSimulator.IDENTIFIER_POOL) st' geoData
              Sample_tick_valid init_within_BOUNDS Hgen)
    as (old & new & Hold & Hnew & H1 & H2 & _).
  exists geoData, st', old, new. exact (conj Hgen (conj Hold (conj Hnew (conj H1 H2)))).
Defined.


Lemma stored_positions_stay_within_BOUNDS_witness :
  ∃ p,
    GeoSimulator.currentPositions
      (Simulation.run GeoSimulator.IDENTIFIER_POOL [Sample.tick; Sample.tick]
         (GeoSimulator.init GeoSimulator.IDENTIFIER_POOL, Resolvers.init)).2.1
      !! "VEHICLE-002" = Some p
    ∧ Simulation.within_BOUNDS p.
Proof.
  eexists. split.
  - vm_compute. reflexivity.
  - apply (stored_positions_stay_within_BOUNDS [Sample.tick; Sample.tick] "VEHICLE-002").
    vm_compute. reflexivity.
Defined.

Lemma ticks_never_fail_with_the_pool_witness :
  ∃ sim store,
    Simulation.run GeoSimulator.IDENTIFIER_POOL [Sample.tick; Sample.tick]
      (GeoSimulator.init GeoSimulator.IDENTIFIER_POOL, Resolvers.init)
    = (JS.Normal (), (sim, store))
    ∧ length (Resolvers.read store Resolvers.geoDataStore) = 2
    ∧ GeoSimulator.counter sim = 2%Z.
Proof.
  destruct (ticks_never_fail_with_the_pool [Sample.tick; Sample.tick])
    as (sim & store & Hrun & Hlen & Hcount & _).
  { repeat constructor; apply Sample_tick_valid. }
  exists sim, store. exact (conj Hrun (conj Hlen Hcount)).
Defined.

Lemma points_are_rebuilt_from_the_events_witness :
  length (MapView.points (Client.map (Client.run Sample.session Client.init)))
  = length (Received.data Sample.session)
  ∧ NoDup (MapView.Point.id
             <$> MapView.points (Client.map (Client.run Sample.session Client.init))).
Proof.
  assert (NoDup (GeoData.id <$> Received.data Sample.session)) as Hnd.
  { apply (bool_decide_unpack _). by vm_compute. }
  destruct (points_are_rebuilt_from_the_events Sample.session Hnd) as (Hlen & Hids & _).
  exact (conj Hlen Hids).
Defined.

Lemma acknowledged_notification_stays_out_witness :
  Forall (λ n, GeoData.id n ≠ GeoData.id (Sample.event 1 "VEHICLE-001"))
    (App.notifications
       (Client.app
          (Client.run
             ([Client.NewGeoData (Sample.event 1 "VEHICLE-001");
               Client.NewGeoData (Sample.event 2 "VEHICLE-002")]
              ++ Client.NotificationClick (Sample.event 1 "VEHICLE-001")
              :: [Client.NewGeoData (Sample.event 3 "VEHICLE-001")])
             Client.init))).
Proof.
  apply Forall_forall.
  apply (acknowledged_notification_stays_out
           [Client.NewGeoData (Sample.event 1 "VEHICLE-001");
            Client.NewGeoData (Sample.event 2 "VEHICLE-002")]
           [Client.NewGeoData (Sample.event 3 "VEHICLE-001")]
           (Sample.event 1 "VEHICLE-001")).
  intros d Hd. apply list_elem_of_singleton in Hd. rewrite Hd. by vm_compute.
Defined.


Lemma generated_vehicle_is_in_the_sidebar_witness :
  ∃ geoData st',
    GeoSimulator.generateRandomGeoData GeoSimulator.IDENTIFIER_POOL Sample.tick
      (GeoSimulator.init GeoSimulator.IDENTIFIER_POOL) = (JS.Normal geoData, st')
    ∧ (GeoData.identifier geoData, GeoData.name geoData) ∈ Sidebar.ALL_IDENTIFIERS.
Proof.
  destruct (generateRandomGeoData_total GeoSimulator.IDENTIFIER_POOL Sample.tick
              (GeoSimulator.init GeoSimulator.IDENTIFIER_POOL))
    as (geoData & st' & Hgen & _);
    [done|apply Sample_tick_valid|apply positions_defined_init|].
  destruct (generated_vehicle_is_in_the_sidebar Sample.tick
              (GeoSimulator.init GeoSimulator.IDENTIFIER_POOL) st' geoData Hgen)
    as (Hin & _).
  exists geoData, st'. exact (conj Hgen Hin).
Defined.

(** ** Map.tsx: the latest flag, in full *)

(** The last event of an entity, located among all events received. *)
Lemma last_of_entity identifier es d :
  last (Received.of_entity identifier es) = Some d →
  ∃ k, Received.data es !! k = Some d
       ∧ GeoData.identifier d = identifier
       ∧ ∀ j d', k < j → Received.data es !! j = Some d' →
                 GeoData.identifier d' ≠ GeoData.identifier d.
Proof.
  unfold Received.of_entity. intros Hlast.
  assert (d ∈ filter (λ x, GeoData.identifier x = identifier) (Received.data es)) as Hin.
  { by apply last_Some_elem_of. }
  apply list_elem_of_filter in Hin as [Hid _].
  apply last_filter_Some in Hlast as (l1 & l2 & Heq & Hl2).
  exists (length l1). rewrite Heq. split_and!.
  - by rewrite lookup_app_r, Nat.sub_diag by lia.
  - done.
  - intros j d' Hj Hd'. rewrite lookup_app_r in Hd' by lia.
    destruct (j - length l1) as [|n] eqn:Hn; [lia|]. simpl in Hd'.
    rewrite Hid. apply (proj1 (Forall_forall _ _) Hl2).
    by eapply list_elem_of_lookup_2.
Qed.

(** C5. After any sequence of events on the client (incoming data,
    filter changes, notification clicks, in any order):
    - at most one point per identifier carries the latest flag, and a
      point that carries it is the one added last for its identifier;
    - an incoming event whose id is new to the source adds its point at
      the end of the source with the flag set, and every flag that a
      point of the same identifier carried before is cleared: the new
      point is the only flagged one of its identifier;
    - an incoming event whose id is already in the source adds no point
      ([addFeature] drops it) while the flags of its identifier are
      cleared all the same: no point of that identifier is flagged then;
    - when the events received have distinct ids (the server numbers its
      events), every entity that has received an event has its flagged
      point, and that is the point of its last event. *)
Theorem latest_flag_unique_and_last (es : list Client.Event) :
  let st := Client.run es Client.init in
  let src := MapView.points (Client.map st) in
  (∀ i j f g,
     src !! i = Some f → src !! j = Some g →
     MapView.Point.identifier f = MapView.Point.identifier g →
     MapView.Point.isLatest f = true → MapView.Point.isLatest g = true →
     i = j)
  ∧ (∀ i j f g,
       src !! i = Some f → src !! j = Some g →
       MapView.Point.identifier f = MapView.Point.identifier g →
       MapView.Point.isLatest f = true →
       j ≤ i)
  ∧ (∀ d,
       GeoData.id d ∉ MapView.Point.id <$> src →
       ∃ f,
         MapView.points (Client.map (Client.step (Client.NewGeoData d) st))
         = MapView.clearLatest (GeoData.identifier d) src ++ [f]
         ∧ MapView.Point.id f = GeoData.id d
         ∧ MapView.Point.identifier f = GeoData.identifier d
         ∧ MapView.Point.isLatest f = true
         ∧ (∀ g, g ∈ MapView.clearLatest (GeoData.identifier d) src →
                 MapView.Point.identifier g = GeoData.identifier d →
                 MapView.Point.isLatest g = false))
  ∧ (∀ d,
       GeoData.id d ∈ MapView.Point.id <$> src →
       MapView.points (Client.map (Client.step (Client.NewGeoData d) st))
       = MapView.clearLatest (GeoData.identifier d) src
       ∧ (∀ g, g ∈ MapView.clearLatest (GeoData.identifier d) src →
               MapView.Point.identifier g = GeoData.identifier d →
               MapView.Point.isLatest g = false))
  ∧ (NoDup (GeoData.id <$> Received.data es) →
     ∀ identifier d,
       last (Received.of_entity identifier es) = Some d →
       ∃ f, f ∈ src
            ∧ MapView.Point.id f = GeoData.id d
            ∧ MapView.Point.identifier f = identifier
            ∧ MapView.Point.isLatest f = true
            ∧ ∀ g, g ∈ src → MapView.Point.identifier g = identifier →
                   MapView.Point.isLatest g = true → g = f).
Proof.
  intros st src.
  assert (MapView.latest_is_last src) as Hinv.
  { apply latest_is_last_run. intros i j f g Hf. by destruct i. }
  assert (∀ i j f g,
            src !! i = Some f → src !! j = Some g →
            MapView.Point.identifier f = MapView.Point.identifier g →
            MapView.Point.isLatest f = true → MapView.Point.isLatest g = true →
            i = j) as Huniq.
  { intros i j f g Hf Hg Hid Hlf Hlg.
    pose proof (Hinv i j f g Hf Hg Hid Hlf).
    pose proof (Hinv j i g f Hg Hf (eq_sym Hid) Hlg). lia. }
  assert (∀ identifier g,
            g ∈ MapView.clearLatest identifier src →
            MapView.Point.identifier g = identifier →
            MapView.Point.isLatest g = false) as Hcleared.
  { intros identifier g (g0 & -> & _)%list_elem_of_fmap Hid.
    case_bool_decide as Hsame; simpl in *; [|done].
    destruct (MapView.Point.isLatest g0) eqn:Hl; simpl; [done|by rewrite Hl]. }
  destruct (mounted_run es Client.init mounted_init) as [[ps Hps] [ls Hls]].
  fold st in Hps, Hls.
  assert (src = ps) as Hsrc by (unfold src, MapView.points; by rewrite Hps).
  split_and!; [exact Huniq|exact Hinv| | |].
  - (* an incoming event with a new id *)
    intros d Hfresh.
    destruct (step_NewGeoData d st ps ls Hps Hls) as (_ & _ & Hps' & _).
    unfold MapView.points at 1. rewrite Hps'. simpl default.
    unfold MapView.addPoint. rewrite <- Hsrc.
    rewrite clearLatest_ids, bool_decide_eq_false_2 by done.
    eexists. split_and!; try done. apply Hcleared.
  - (* an incoming event with an id of the source *)
    intros d Hold.
    destruct (step_NewGeoData d st ps ls Hps Hls) as (_ & _ & Hps' & _).
    unfold MapView.points at 1. rewrite Hps'. simpl default.
    unfold MapView.addPoint. rewrite <- Hsrc.
    rewrite clearLatest_ids, bool_decide_eq_true_2 by done.
    split; [done|apply Hcleared].
  - (* a whole session with distinct ids *)
    intros Hnd identifier d Hlast.
    destruct (last_of_entity identifier es d Hlast) as (k & Hk & Hid & Hlater).
    destruct (points_follow_events es Hnd) as [Hlen Hpoints].
    fold st src in Hlen, Hpoints.
    destruct (lookup_lt_is_Some_2 src k) as [f Hf].
    { rewrite Hlen. by eapply lookup_lt_Some. }
    destruct (Hpoints k f d Hf Hk) as [Hdata Hflag].
    exists f. split_and!.
    + by eapply list_elem_of_lookup_2.
    + by apply (f_equal MapView.Point.id) in Hdata.
    + apply (f_equal MapView.Point.identifier) in Hdata. simpl in Hdata. congruence.
    + by apply Hflag.
    + intros g [j Hg]%list_elem_of_lookup Hgid Hgl.
      assert (MapView.Point.identifier f = identifier) as Hfid.
      { apply (f_equal MapView.Point.identifier) in Hdata. simpl in Hdata. congruence. }
      assert (j = k) as ->.
      { apply (Huniq j k g f Hg Hf); [congruence|done|by apply Hflag]. }
      congruence.
Qed.

Lemma latest_flag_unique_and_last_witness :
  ∃ f, f ∈ MapView.points (Client.map (Client.run Sample.session Client.init))
       ∧ MapView.Point.id f = GeoData.id (Sample.event 3 "VEHICLE-001")
       ∧ MapView.Point.identifier f = "VEHICLE-001"
       ∧ MapView.Point.isLatest f = true.
Proof.
  destruct (latest_flag_unique_and_last Sample.session) as (_ & _ & _ & _ & Hlive).
  assert (NoDup (GeoData.id <$> Received.data Sample.session)) as Hnd.
  { apply (bool_decide_unpack _). by vm_compute. }
  destruct (Hlive Hnd "VEHICLE-001" (Sample.event 3 "VEHICLE-001") eq_refl)
    as (f & Hf & Hid & Hident & Hflag & _).
  exists f. exact (conj Hf (conj Hid (conj Hident Hflag))).
Defined.
